(** * atlantis-supervisor: the container monitor ([atlantis/monitor])

    A shallow embedding of [monitor.go] and of the parts of
    [atlantis/supervisor/rpc/types] it reads, with the properties of the
    monitor's design document stated and settled against it.

    Conventions.
    - Go strings are byte strings: [string] (a list of [ascii]).
    - What the monitor does to the outside world (printing a line, running a
      subprocess, touching the file system, starting a goroutine, sending or
      receiving on a channel) is recorded as a list of [event]s, one list per
      goroutine, in that goroutine's program order.
    - What the outside world answers (the output of a subprocess, how long
      it takes, the persisted container map) is read from a [World]. *)

From Stdlib Require Import ZArith NArith Ascii String DecimalString List Lia.
From stdpp Require Import base strings list gmap.

Local Open Scope Z_scope.

(* ================================================================== *)
(** * Models of the Go standard library functions the monitor calls   *)
(* ================================================================== *)

(** ** Package [strings] (byte-wise; every separator used by the monitor
       is a single byte) *)
Module GoStrings.

(** [strings.Split(s, sep)] for a one-byte separator: all the fields,
    empty ones included; never the empty list. *)
Fixpoint Split (s : string) (sep : ascii) : list string :=
  match s with
  | EmptyString => [EmptyString]
  | String c r =>
      if Ascii.eqb c sep then EmptyString :: Split r sep
      else match Split r sep with
           | h :: t => String c h :: t
           | [] => [String c EmptyString]
           end
  end.

(** [strings.SplitN(s, sep, n)] for a one-byte separator and [n >= 0]:
    at most [n] fields, the last one being the unsplit rest. *)
Fixpoint SplitN (s : string) (sep : ascii) (n : nat) {struct s} : list string :=
  match n with
  | O => []
  | S O => [s]
  | S (S _ as n') =>
      match s with
      | EmptyString => [EmptyString]
      | String c r =>
          if Ascii.eqb c sep then EmptyString :: SplitN r sep n'
          else match SplitN r sep n with
               | h :: t => String c h :: t
               | [] => [String c EmptyString]
               end
      end
  end.

Definition bytes (l : list nat) : string :=
  fold_right (fun b r => String (ascii_of_nat b) r) EmptyString l.

(** The UTF-8 encodings of the code points for which [unicode.IsSpace]
    holds: tab, LF, VT, FF, CR, space, U+0085, U+00A0, U+1680,
    U+2000..U+200A, U+2028, U+2029, U+202F, U+205F, U+3000. *)
Definition space_runes : list string :=
  map bytes
    [ [9]; [10]; [11]; [12]; [13]; [32];
      [194; 133]; [194; 160]; [225; 154; 128];
      [226; 128; 128]; [226; 128; 129]; [226; 128; 130]; [226; 128; 131];
      [226; 128; 132]; [226; 128; 133]; [226; 128; 134]; [226; 128; 135];
      [226; 128; 136]; [226; 128; 137]; [226; 128; 138];
      [226; 128; 168]; [226; 128; 169]; [226; 128; 175];
      [226; 129; 159]; [227; 128; 128] ]%nat.

Fixpoint strip_prefix (p s : string) : option string :=
  match p, s with
  | EmptyString, _ => Some s
  | String a p', String b s' => if Ascii.eqb a b then strip_prefix p' s' else None
  | String _ _, EmptyString => None
  end.

(** The rest of [s] after one leading white-space rune, if it has one. *)
Fixpoint strip_rune (runes : list string) (s : string) : option string :=
  match runes with
  | [] => None
  | r :: rs => match strip_prefix r s with
               | Some rest => Some rest
               | None => strip_rune rs s
               end
  end.

Fixpoint trim_left (runes : list string) (fuel : nat) (s : string) : string :=
  match fuel with
  | O => s
  | S fuel' => match strip_rune runes s with
               | Some rest => trim_left runes fuel' rest
               | None => s
               end
  end.

Fixpoint rev_string (s : string) : string :=
  match s with
  | EmptyString => EmptyString
  | String c r => rev_string r +:+ String c EmptyString
  end.

(** [strings.TrimLeftFunc(s, unicode.IsSpace)]; every rune removed is at
    least one byte, so [length s] rounds are enough. *)
Definition TrimLeftSpace (s : string) : string :=
  trim_left space_runes (String.length s) s.

(** [strings.TrimRightFunc(s, unicode.IsSpace)]: the same on the
    reversed string with the reversed encodings. *)
Definition TrimRightSpace (s : string) : string :=
  rev_string (trim_left (map rev_string space_runes) (String.length s) (rev_string s)).

(** [strings.TrimSpace(s)] *)
Definition TrimSpace (s : string) : string :=
  TrimRightSpace (TrimLeftSpace s).

(** [strings.Replace(s, old, new, 1)] for a one-byte [old]: the first
    occurrence only. *)
Fixpoint Replace1 (s : string) (old : ascii) (new : string) : string :=
  match s with
  | EmptyString => EmptyString
  | String c r => if Ascii.eqb c old then new +:+ r else String c (Replace1 r old new)
  end.

(** [strings.TrimSuffix(s, suffix)] *)
Definition TrimSuffix (s suffix : string) : string :=
  match strip_prefix (rev_string suffix) (rev_string s) with
  | Some r => rev_string r
  | None => s
  end.

(** [strings.Fields(s)] restricted to the ASCII white space: the maximal
    runs of non-space bytes. Only the wording of the design document
    ("whitespace-delimited token") refers to it; the monitor never
    calls it. *)
Definition ascii_space (c : ascii) : bool :=
  match nat_of_ascii c with
  | 9%nat | 10%nat | 11%nat | 12%nat | 13%nat | 32%nat => true
  | _ => false
  end.

Fixpoint fields_aux (s : string) (cur : option string) : list string :=
  match s with
  | EmptyString => match cur with Some w => [rev_string w] | None => [] end
  | String c r =>
      if ascii_space c
      then match cur with
           | Some w => rev_string w :: fields_aux r None
           | None => fields_aux r None
           end
      else fields_aux r (Some (String c (default EmptyString cur)))
  end.

Definition Fields (s : string) : list string := fields_aux s None.

(** [strings.LastIndex(s, sep)] for a one-byte separator: the index of
    its last occurrence, [-1] when there is none. [last_index] scans [s],
    whose first byte has index [i], [found] being the answer so far. *)
Fixpoint last_index (s : string) (sep : ascii) (i found : Z) : Z :=
  match s with
  | EmptyString => found
  | String c r => last_index r sep (i + 1) (if Ascii.eqb c sep then i else found)
  end.

Definition LastIndex (s : string) (sep : ascii) : Z := last_index s sep 0 (-1).

(** The slice [s[n:]], for [n] up to the length of [s]. *)
Fixpoint slice_from (n : nat) (s : string) : string :=
  match n, s with
  | O, _ => s
  | S n', String _ r => slice_from n' r
  | S _, EmptyString => EmptyString
  end.

End GoStrings.

(** ** Package [fmt]: the verb [%d] *)
Module GoFmt.
Definition d (z : Z) : string :=
  match z with
  | Z0 => "0"
  | Zpos p => NilZero.string_of_uint (Pos.to_uint p)
  | Zneg p => "-" +:+ NilZero.string_of_uint (Pos.to_uint p)
  end.
End GoFmt.

(** ** Package [path] *)
Module GoPath.
(** [path.Join(dir, name)] on operands that are already clean ([path.Clean]
    leaves them alone): empty operands are dropped, the others joined by
    one slash. *)
Definition Join (dir name : string) : string :=
  if String.eqb dir "" then name
  else if String.eqb name "" then dir
  else dir +:+ "/" +:+ name.

Fixpoint drop_slashes (r : string) : string :=
  match r with
  | String c r' => if Ascii.eqb c "/" then drop_slashes r' else r
  | EmptyString => EmptyString
  end.

Fixpoint upto_slash (r : string) : string :=
  match r with
  | String c r' => if Ascii.eqb c "/" then EmptyString else String c (upto_slash r')
  | EmptyString => EmptyString
  end.

(** [path.Base(p)]: the last element of [p], trailing slashes removed
    first; [.] for the empty path and [/] for one made of slashes. *)
Definition Base (p : string) : string :=
  if String.eqb p "" then "."
  else let r := drop_slashes (GoStrings.rev_string p) in
       if String.eqb r "" then "/" else GoStrings.rev_string (upto_slash r).

(** [path.Ext(p)]: the suffix starting at the last dot of the last
    slash-separated element, empty when there is none. Computed on the
    reversed string: [ext_rev] returns the reversed extension. *)
Fixpoint ext_rev (r : string) : option string :=
  match r with
  | EmptyString => None
  | String c r' =>
      if Ascii.eqb c "/" then None
      else if Ascii.eqb c "." then Some (String c EmptyString)
      else match ext_rev r' with
           | Some e => Some (String c e)
           | None => None
           end
  end.

Definition Ext (p : string) : string :=
  match ext_rev (GoStrings.rev_string p) with
  | Some e => GoStrings.rev_string e
  | None => EmptyString
  end.
End GoPath.

(** ** Package [os/exec] *)
Module GoExec.
(** [exec.Cmd]: the program to run and its argument vector, [Args[0]]
    being the program name as given. *)
Record Cmd := { Path : string; Args : list string }.

(** [exec.Command(name, arg...)]. The names the monitor passes either
    contain a slash (and are then taken as the path, without a search)
    or are [ssh]; the search of [$PATH] is not modelled. *)
Definition Command (name : string) (arg : list string) : Cmd :=
  {| Path := name; Args := name :: arg |}.

#[global] Instance Cmd_eq_dec : EqDecision Cmd.
Proof. solve_decision. Defined.
End GoExec.

(** ** Package [os] and [path/filepath]: a directory tree *)
Module GoOS.
(** What [os.Stat] reports, as far as [os.IsNotExist] can tell. *)
Inductive stat_result := StatOk | StatNotExist | StatOtherError.

Definition IsNotExist (r : stat_result) : bool :=
  match r with StatNotExist => true | _ => false end.

#[local] Unset Elimination Schemes.
(** A file, or a directory with its entries in the (lexical) order in
    which the directory is read. *)
Inductive node :=
| File
| Dir (entries : list (string * node)).
#[local] Set Elimination Schemes.

Definition IsDir (n : node) : bool :=
  match n with Dir _ => true | File => false end.

(** [os.Remove(path)] on what is at [path] ([None]: nothing): a file or
    an empty directory goes away; anything else is an error, whose text
    is the one of [*os.PathError]. *)
Definition Remove (path : string) (at_path : option node) : option node * option string :=
  match at_path with
  | None => (None, Some ("remove " +:+ path +:+ ": no such file or directory"))
  | Some File => (None, None)
  | Some (Dir []) => (None, None)
  | Some (Dir (_ :: _)) => (at_path, Some ("remove " +:+ path +:+ ": directory not empty"))
  end.
End GoOS.

(* ================================================================== *)
(** * [atlantis/supervisor/rpc/types]: what the monitor reads          *)
(* ================================================================== *)
Module Types.
(** A value of type [interface{}] as far as the type assertion
    [.(string)] can tell. *)
Inductive iface := IString (s : string) | INotString.

Record AppDep := {
  SecurityGroup : list string;
  DataMap : gmap string iface;
  EncryptedData : string }.

Record Manifest := {
  Name : string;
  Description : string;
  Instances : Z;
  CPUShares : Z;
  MemoryLimit : Z;
  Image : string;
  AppType : string;
  RunCommands : list string;
  Deps : gmap string (option AppDep) }.

(** [Manifest] is a pointer in the source, and so are the values of
    [Deps]: [None] is [nil]. *)
Record Container := {
  ID : string;
  DockerID : string;
  IP : string;
  Host : string;
  PrimaryPort : Z;
  SecondaryPorts : list Z;
  SSHPort : Z;
  App : string;
  Sha : string;
  Env : string;
  Manifest_ : option Manifest }.

Definition GetID (c : Container) : string := ID c.
Definition GetSSHPort (c : Container) : Z := SSHPort c.

(** [RandomID]: the id from after its last dash on. *)
Definition RandomID (c : Container) : string :=
  GoStrings.slice_from (Z.to_nat (GoStrings.LastIndex (ID c) "-" + 1)) (ID c).

(** [run_command] of a manifest file, as the type switch of
    [CreateManifest] sees it: a string, an array, anything else (nothing
    included). *)
Inductive run_command :=
| RunString (s : string)
| RunArray (l : list iface)
| RunOther.

Record ManifestTOML := {
  t_Name : string;
  t_Description : string;
  t_Instances : Z;
  t_CPUShares : Z;
  t_MemoryLimit : Z;
  t_Image : string;
  t_AppType : string;
  t_RunCommand : run_command;
  t_DepNames : list string }.

(** [&AppDep{}] *)
Definition empty_dep : AppDep :=
  {| SecurityGroup := []; DataMap := ∅; EncryptedData := EmptyString |}.

(** The loop of [CreateManifest] over the array: [append] for every
    string, an error at the first element that is none. *)
Fixpoint append_commands (cmds : list string) (l : list iface) : list string + string :=
  match l with
  | [] => inl cmds
  | IString cmdStr :: r => append_commands (cmds ++ [cmdStr]) r
  | INotString :: _ => inr "Invalid Manifest: non-string element in run_command array!"
  end.

(** [CreateManifest(mt)]: the manifest, or the error. *)
Definition CreateManifest (mt : ManifestTOML) : Manifest + string :=
  let deps := fold_left (fun deps name => <[name := Some empty_dep]> deps)
                (t_DepNames mt) (∅ : gmap string (option AppDep)) in
  let cmds :=
    match t_RunCommand mt with
    | RunString runCommand => inl [runCommand]
    | RunArray runCommand => append_commands (replicate 1 EmptyString) runCommand
    | RunOther => inr "Invalid Manifest: run_command should be string or []string"
    end in
  match cmds with
  | inr e => inr e
  | inl cmds =>
      inl {| Name := t_Name mt; Description := t_Description mt;
             Instances := t_Instances mt; CPUShares := t_CPUShares mt;
             MemoryLimit := t_MemoryLimit mt; Image := t_Image mt;
             AppType := t_AppType mt; RunCommands := cmds; Deps := deps |}
  end.

(** [dst := make([]string, n)] followed by [dst[i] = x] for the [i]-th
    [x] of [src]: the loops of [Dup] and of [DepNames]. *)
Definition fill (n : nat) (src : list string) : list string :=
  (fold_left (fun '(dst, i) x => (<[i := x]> dst, S i)) src
     (replicate n EmptyString, O)).1.

(** [m.DepNames()]: the keys of [Deps], in the order [range] goes through
    them (here: the order of [map_to_list]). *)
Definition DepNames (m : Manifest) : list string :=
  fill (size (Deps m)) (map_to_list (Deps m)).*1.

(** The copy [Dup] makes of one dependency. *)
Definition dup_dep (val : AppDep) : AppDep :=
  {| SecurityGroup := fill (length (SecurityGroup val)) (SecurityGroup val);
     DataMap := fold_left (fun dm kv => <[kv.1 := kv.2]> dm) (map_to_list (DataMap val))
                  (∅ : gmap string iface);
     EncryptedData := EncryptedData val |}.

(** [m.Dup()]: the copy, or [None] when the loop over [Deps] meets a nil
    dependency and dereferences it. *)
Definition Dup (m : Manifest) : option Manifest :=
  let runCommands := fill (length (RunCommands m)) (RunCommands m) in
  let deps :=
    fold_left (fun acc kv =>
                 match acc, kv.2 with
                 | Some deps, Some val => Some (<[kv.1 := Some (dup_dep val)]> deps)
                 | _, _ => None
                 end)
      (map_to_list (Deps m)) (Some (∅ : gmap string (option AppDep))) in
  match deps with
  | None => None
  | Some deps =>
      Some {| Name := Name m; Description := Description m; Instances := Instances m;
              CPUShares := CPUShares m; MemoryLimit := MemoryLimit m; Image := Image m;
              AppType := AppType m; RunCommands := runCommands; Deps := deps |}
  end.
End Types.

(* ================================================================== *)
(** * [atlantis/monitor]                                               *)
(* ================================================================== *)

(** ** Severities, configuration, the two kinds of check *)

Definition OK : Z := 0.
Definition Warning : Z := 1.
Definition Critical : Z := 2.
Definition Uknown : Z := 3.

Record Config := {
  ContainerFile : string;
  InventoryDir : string;
  SSHIdentity : string;
  SSHUser : string;
  CheckName : string;
  CheckDir : string;
  TimeoutDuration : Z }.

Record Opts := {
  opt_ContainerFile : string;
  opt_SSHIdentity : string;
  opt_SSHUser : string;
  opt_CheckName : string;
  opt_CheckDir : string;
  opt_TimeoutDuration : Z;
  opt_Config : string }.

Record ServiceCheck := {
  Service : string;
  User : string;
  Identity : string;
  Host : string;
  Port : Z;
  Script : string }.

Record ContainerCheck := {
  cc_Name : string;
  cc_User : string;
  cc_Identity : string;
  cc_Directory : string;
  cc_Inventory : string;
  container : Types.Container }.

Definition config : Config := {|
  ContainerFile := "/etc/atlantis/supervisor/save/containers";
  InventoryDir := "/etc/atlantis/supervisor/inventory";
  SSHIdentity := "/opt/atlantis/supervisor/master_id_rsa";
  SSHUser := "root";
  CheckName := "ContainerMonitor";
  CheckDir := "/check_mk_checks";
  TimeoutDuration := 110 |}.

(** ** Events and the outside world *)

(** The channels: [done] of [Run] (handed to every [ContainerCheck.Run]),
    [results] of [checkAll] (handed to every [checkWithTimeout]) and
    [done] of [checkWithTimeout] (handed to its [runCheck]). *)
Inductive chan := ch_run_done | ch_results | ch_check_done.

(** What a [go] statement starts. *)
Inductive goroutine :=
| go_ContainerCheck_Run (check : ContainerCheck) (t : Z)
| go_checkWithTimeout (s : ServiceCheck) (t : Z)
| go_runCheck (s : ServiceCheck).

Inductive event :=
| EPrint (text : string)            (* fmt.Print / fmt.Printf *)
| EOutput (c : GoExec.Cmd)          (* c.Output(): run and wait *)
| EStat (path : string)             (* os.Stat *)
| ECreate (path : string)           (* os.Create *)
| ERemove (path : string)           (* os.Remove *)
| ERetrieve (path : string)         (* serialize.RetrieveObject *)
| EGo (g : goroutine)               (* go g *)
| ESend (c : chan)                  (* c <- true *)
| ERecv (c : chan)                  (* <-c *)
| ETimer                            (* <-time.After(d) *)
| EPanic.                           (* nil pointer dereference *)

(** The answers of the outside world. An error is the text of its
    [Error()]. *)
Record World := {
  (** the result of [c.Output()]: standard output, or the error *)
  Output : GoExec.Cmd → string + string;
  (** the time [c.Output()] takes, in nanoseconds *)
  Elapsed : GoExec.Cmd → Z;
  (** [os.Stat] of a path, before the monitor has created anything *)
  Stat : string → GoOS.stat_result;
  (** whether [os.Create] of this path succeeds *)
  Creatable : string → bool;
  (** [serialize.RetrieveObject(path, &contMap)]: the decoded map, listed
      in the order in which [range] happens to iterate over it, or the
      error *)
  RetrieveObject : string → list (string * Types.Container) + string;
  (** [toml.DecodeFile(path, config)]: the configuration after decoding
      the file into it *)
  DecodeFile : string → Config → Config;
  (** [os.Getenv] *)
  Getenv : string → string;
  (** the inventory directory when [Run] starts its clean-up
      ([None]: there is nothing at that path) *)
  Inventory : option GoOS.node }.

(** [time.Duration] and the other 64-bit signed integers wrap around. *)
Definition int64 (z : Z) : Z := (z + 2 ^ 63) mod 2 ^ 64 - 2 ^ 63.

Definition Second : Z := 1000000000.

(** The line feed that ends every line printed. *)
Definition LF : string := String (ascii_of_nat 10) EmptyString.

(** ** [silentSshCmd] *)

Definition silentSshCmd (user identity host cmd : string) (port : Z) : GoExec.Cmd :=
  let args := ["-q"; user +:+ "@" +:+ host; "-i"; identity; "-p"; GoFmt.d port;
               "-o"; "StrictHostKeyChecking=no"; cmd] in
  GoExec.Command "ssh" args.

(** ** The methods of [ServiceCheck] *)
Module ServiceCheck.

Definition cmd (s : ServiceCheck) : GoExec.Cmd :=
  silentSshCmd (User s) (Identity s) (Host s) (Script s) (Port s).

Definition timeOutMsg (s : ServiceCheck) : string :=
  GoFmt.d Critical +:+ " " +:+ Service s +:+ " - Timeout occured during check" +:+ LF.

(** [err]: [None] is [nil], [Some e] an error whose [Error()] is [e]. *)
Definition errMsg (s : ServiceCheck) (err : option string) : string :=
  match err with
  | Some e => GoFmt.d Critical +:+ " " +:+ Service s +:+ " - " +:+ e +:+ LF
  | None => GoFmt.d Critical +:+ " " +:+ Service s
            +:+ " - Error encountered while monitoring the service" +:+ LF
  end.

Definition validate (s : ServiceCheck) (msg : string) : string :=
  let m := GoStrings.SplitN msg " " 4 in
  match m with
  | _ :: m1 :: _ => if String.eqb m1 (Service s) then msg else errMsg s None
  | _ => errMsg s None
  end.

(** The line [runCheck] prints. *)
Definition result_line (w : World) (s : ServiceCheck) : string :=
  match Output w (cmd s) with
  | inr err => errMsg s (Some err)
  | inl out => validate s out
  end.

(** [runCheck(done)], one goroutine started at time [now]: run the
    command, and when it returns print one line and signal. [done] has
    room for the signal, so the send never blocks. The clock is ideal:
    only [Output()] takes time. *)
Definition runCheck (w : World) (s : ServiceCheck) (now : Z) : list (Z * event) :=
  let fin := now + Elapsed w (cmd s) in
  [(now, EOutput (cmd s)); (fin, EPrint (result_line w s)); (fin, ESend ch_check_done)].

(** How the runtime orders what happens at one and the same instant in
    [checkWithTimeout]: the check goes first and [select] takes [done];
    or the timer goes first; or the check goes first and [select], with
    both cases ready, picks the timer. *)
Inductive tie := TieDone | TieTimer | TieBothPickTimer.

(** Two timed sequences in one, by time; at equal times the left one goes
    first when [left_first] holds. *)
Fixpoint interleave (left_first : bool) (a : list (Z * event))
  : list (Z * event) → list (Z * event) :=
  match a with
  | [] => fun b => b
  | x :: a' =>
      fix interleave_right (b : list (Z * event)) : list (Z * event) :=
        match b with
        | [] => x :: a'
        | y :: b' =>
            if (x.1 <? y.1) || (left_first && (x.1 =? y.1))
            then x :: interleave left_first a' (y :: b')
            else y :: interleave_right b'
        end
  end.

(** [checkWithTimeout(results, d)] started at time [now], with the
    goroutine it starts: every event of the two with the time at which
    it happens, in order. [time.After(d)] fires at [d], at once when
    [d <= 0]; [select] takes the case that is ready first. A goroutine
    that can go on does so at once. Nothing here stops [runCheck] when
    the timer wins. *)
Definition checkWithTimeout (w : World) (s : ServiceCheck) (d : Z) (sel : tie) (now : Z)
  : list (Z * event) :=
  let fin := now + Elapsed w (cmd s) in
  let fire := now + Z.max 0 d in
  let timer_wins :=
    (fire <? fin) || ((fire =? fin) && match sel with TieDone => false | _ => true end) in
  let selected :=
    if timer_wins
    then [(fire, ETimer); (fire, EPrint (timeOutMsg s)); (fire, ESend ch_results)]
    else [(fin, ERecv ch_check_done); (fin, ESend ch_results)] in
  let check_first :=
    if timer_wins then match sel with TieTimer => false | _ => true end else true in
  (now, EGo (go_runCheck s)) :: interleave check_first (runCheck w s now) selected.

End ServiceCheck.

(** ** Reading a sequence of events *)

(** The lines printed, in order. *)
Fixpoint prints (ev : list event) : list string :=
  match ev with
  | [] => []
  | EPrint l :: r => l :: prints r
  | _ :: r => prints r
  end.

(** The subprocesses run, in order. *)
Fixpoint outputs (ev : list event) : list GoExec.Cmd :=
  match ev with
  | [] => []
  | EOutput c :: r => c :: outputs r
  | _ :: r => outputs r
  end.

(** The goroutines started, in order. *)
Fixpoint started (ev : list event) : list goroutine :=
  match ev with
  | [] => []
  | EGo g :: r => g :: started r
  | _ :: r => started r
  end.

(** The paths handed to [os.Create], in order. *)
Fixpoint creates (ev : list event) : list string :=
  match ev with
  | [] => []
  | ECreate p :: r => p :: creates r
  | _ :: r => creates r
  end.

Definition chan_eqb (a b : chan) : bool :=
  match a, b with
  | ch_run_done, ch_run_done | ch_results, ch_results
  | ch_check_done, ch_check_done => true
  | _, _ => false
  end.

(** The number of signals sent on [c], and received from it. *)
Fixpoint sent (c : chan) (ev : list event) : nat :=
  match ev with
  | [] => O
  | ESend c' :: r => if chan_eqb c c' then S (sent c r) else sent c r
  | _ :: r => sent c r
  end.

Fixpoint received (c : chan) (ev : list event) : nat :=
  match ev with
  | [] => O
  | ERecv c' :: r => if chan_eqb c c' then S (received c r) else received c r
  | _ :: r => received c r
  end.


(** An event that is a call of [os.Remove]. *)
Definition is_remove (e : event) : Prop :=
  match e with ERemove _ => True | _ => False end.


(** Timed sequences: the events up to time [h] (the process may end at any
    time, and what a goroutine would have done later does not happen). *)
Fixpoint until (h : Z) (tl : list (Z * event)) : list event :=
  match tl with
  | [] => []
  | (t, e) :: r => if t <=? h then e :: until h r else until h r
  end.

(** The time at which line [l] is first printed. *)
Fixpoint printed_at (l : string) (tl : list (Z * event)) : option Z :=
  match tl with
  | [] => None
  | (t, EPrint l') :: r => if String.eqb l l' then Some t else printed_at l r
  | _ :: r => printed_at l r
  end.

(** The time of the first signal on [c]. *)
Fixpoint sent_at (c : chan) (tl : list (Z * event)) : option Z :=
  match tl with
  | [] => None
  | (t, ESend c') :: r => if chan_eqb c c' then Some t else sent_at c r
  | _ :: r => sent_at c r
  end.

(** ** The marker files *)

(** The state of the file system as the monitor changes it: the paths it
    has created with [os.Create] on top of what [Stat] of the world
    answers. *)
Definition os_Stat (w : World) (created : gset string) (path : string) : GoOS.stat_result :=
  if bool_decide (path ∈ created) then GoOS.StatOk else Stat w path.

(** [os.Create(path)], its error dropped as the monitor drops it. *)
Definition os_Create (w : World) (created : gset string) (path : string) : gset string :=
  if Creatable w path then {[path]} ∪ created else created.

(** ** The methods of [ContainerCheck] *)
Module ContainerCheck.

Definition serviceCheck (c : ContainerCheck) (script : string) : ServiceCheck :=
  let command := cc_Directory c +:+ "/" +:+ script +:+ " "
                 +:+ GoFmt.d (Types.PrimaryPort (container c)) +:+ " "
                 +:+ Types.ID (container c) in
  let serviceName := hd EmptyString (GoStrings.Split script ".") +:+ "_"
                     +:+ Types.ID (container c) in
  {| Service := serviceName; User := cc_User c; Identity := cc_Identity c;
     Host := Types.Host (container c); Port := Types.SSHPort (container c);
     Script := command |}.

(** The contact group of [checkAll]; [None] when reading it dereferences
    a nil pointer. *)
Definition contact_group (c : ContainerCheck) : option string :=
  match Types.Manifest_ (container c) with
  | None => None
  | Some m =>
      match Types.Deps m !! "cmk" with
      | None => Some "atlantis_orphan_apps"
      | Some None => None
      | Some (Some dep) =>
          match Types.DataMap dep !! "contact_group" with
          | Some (Types.IString grp) => Some grp
          | _ => Some "atlantis_orphan_apps"
          end
      end
  end.

(** The registration command of [checkAll]. *)
Definition registration (serviceName contact_group : string) : GoExec.Cmd :=
  GoExec.Command ("/usr/bin/cmk_admin -s " +:+ serviceName +:+ " -a " +:+ contact_group) [].

(** The first loop of [checkAll]: the events, the files created, and
    whether the loop ran to its end ([false]: it returned from
    [checkAll]). *)
Fixpoint checkAll_loop (w : World) (c : ContainerCheck) (contact_group : string) (t : Z)
    (scripts : list string) (created : gset string) : list event * gset string * bool :=
  match scripts with
  | [] => ([], created, true)
  | s :: rest =>
      let serviceName := hd EmptyString (GoStrings.Split s ".") +:+ "_"
                         +:+ Types.ID (container c) in
      let inventoryPath := GoPath.Join (cc_Inventory c) serviceName in
      let spawn := EGo (go_checkWithTimeout (serviceCheck c s) t) in
      if GoOS.IsNotExist (os_Stat w created inventoryPath) then
        let reg := registration serviceName contact_group in
        match Output w reg with
        | inr err =>
            ([EStat inventoryPath; EOutput reg;
              EPrint ("Failure to update contact group for service " +:+ serviceName
                      +:+ ". Error:" +:+ LF +:+ err +:+ LF)],
             created, false)
        | inl _ =>
            let '(ev, created', finished) :=
              checkAll_loop w c contact_group t rest (os_Create w created inventoryPath) in
            (EStat inventoryPath :: EOutput reg :: ECreate inventoryPath :: spawn :: ev,
             created', finished)
        end
      else
        let '(ev, created', finished) := checkAll_loop w c contact_group t rest created in
        (EStat inventoryPath :: spawn :: ev, created', finished)
  end.

Definition checkAll (w : World) (c : ContainerCheck) (scripts : list string) (t : Z)
    (created : gset string) : list event * gset string :=
  match contact_group c with
  | None => ([EPanic], created)
  | Some grp =>
      let '(ev, created', finished) := checkAll_loop w c grp t scripts created in
      if finished then (ev ++ repeat (ERecv ch_results) (length scripts), created')
      else (ev, created')
  end.

(** [Run(t, done)]. The deferred send comes last on every path; after a
    panic it still runs, and then the process dies. *)
Definition Run (w : World) (c : ContainerCheck) (t : Z) (created : gset string)
  : list event * gset string :=
  let ls := silentSshCmd (cc_User c) (cc_Identity c) (Types.Host (container c))
              ("ls " +:+ cc_Directory c) (Types.SSHPort (container c)) in
  match Output w ls with
  | inr err =>
      ([EOutput ls;
        EPrint (GoFmt.d Critical +:+ " " +:+ cc_Name c
                +:+ " - Error getting checks for container:" +:+ LF +:+ err +:+ LF);
        ESend ch_run_done], created)
  | inl o =>
      let got := EPrint (GoFmt.d OK +:+ " " +:+ cc_Name c
                         +:+ " - Got checks for container" +:+ LF) in
      let scripts := GoStrings.Split (GoStrings.TrimSpace o) (ascii_of_nat 10) in
      if match scripts with
         | [] => true
         | s0 :: _ => (String.length s0 =? 0)%nat
         end
      then ([EOutput ls; got; ESend ch_run_done], created)
      else
        let '(ev, created') := checkAll w c scripts t created in
        (EOutput ls :: got :: ev ++ [ESend ch_run_done], created')
  end.

End ContainerCheck.

(** ** [path/filepath.Walk] *)
Module GoFilepath.
Import GoOS.

(** What a [WalkFunc] does at [path], given what is there: what is there
    afterwards, the events, and the error returned. The functions walked
    with here remove what is at [path] or leave it alone, and never
    return [SkipDir]. *)
Definition WalkFunc : Type := string → option node → option node * list event * option string.

(** The loop of [walk] over the entries of the directory at [path],
    [walk_child] being [walk] itself: the entries that are left, the
    events, the error that ended the loop. *)
Fixpoint walk_entries (walk_child : string → node → option node * list event * option string)
    (path : string) (entries : list (string * node))
  : list (string * node) * list event * option string :=
  match entries with
  | [] => ([], [], None)
  | (name, child) :: rest =>
      let '(st, ev1, err1) := walk_child (GoPath.Join path name) child in
      let kept := match st with Some n => [(name, n)] | None => [] end in
      match err1 with
      | Some e => (kept ++ rest, ev1, Some e)
      | None =>
          let '(rest', ev2, err2) := walk_entries walk_child path rest in
          (kept ++ rest', ev1 ++ ev2, err2)
      end
  end.

(** [walk(path, info, walkFn)] of the Go release the monitor was written
    for: the function is called on [path] first; a directory is read and
    descended into afterwards, entry by entry, and the first error ends
    the walk. When the directory cannot be read any more, the function is
    called on it a second time, with the error of the reading. *)
Fixpoint walk (walkFn : WalkFunc) (path : string) (info : node) {struct info}
  : option node * list event * option string :=
  let '(there, ev, err) := walkFn path (Some info) in
  match err with
  | Some e => (there, ev, Some e)
  | None =>
      match info with
      | File => (there, ev, None)
      | Dir entries =>
          match there with
          | None =>
              let '(there', ev', err') := walkFn path None in
              (there', ev ++ ev', err')
          | Some _ =>
              let '(entries', ev', err') :=
                walk_entries (fun p child => walk walkFn p child) path entries in
              (Some (Dir entries'), ev ++ ev', err')
          end
      end
  end.

(** [filepath.Walk(root, walkFn)]: [root] is the first path visited. *)
Definition Walk (walkFn : WalkFunc) (root : string) (at_root : option node)
  : option node * list event * option string :=
  match at_root with
  | None => walkFn root None
  | Some info => walk walkFn root info
  end.
End GoFilepath.

(** ** [overlayConfig] and [Run] *)

(** [opts] is what [flags.Parse] has filled in. *)
Definition overlayConfig (w : World) (opts : Opts) (config : Config) : Config :=
  let config := if negb (String.eqb (opt_Config opts) "")
                then DecodeFile w (opt_Config opts) config else config in
  {| ContainerFile := if negb (String.eqb (opt_ContainerFile opts) "")
                      then opt_ContainerFile opts else ContainerFile config;
     InventoryDir := InventoryDir config;
     SSHIdentity := if negb (String.eqb (opt_SSHIdentity opts) "")
                    then opt_SSHIdentity opts else SSHIdentity config;
     SSHUser := if negb (String.eqb (opt_SSHUser opts) "")
                then opt_SSHUser opts else SSHUser config;
     CheckName := if negb (String.eqb (opt_CheckName opts) "")
                  then opt_CheckName opts else CheckName config;
     CheckDir := if negb (String.eqb (opt_CheckDir opts) "")
                 then opt_CheckDir opts else CheckDir config;
     TimeoutDuration := if negb (opt_TimeoutDuration opts =? 0)
                        then opt_TimeoutDuration opts else TimeoutDuration config |}.

(** [_, ok := contMap[cont]] *)
Definition has_key (contMap : list (string * Types.Container)) (cont : string) : bool :=
  existsb (fun kc => String.eqb cont kc.1) contMap.

(** The function [Run] walks the inventory directory with. *)
Definition cleanup_walkFn (contMap : list (string * Types.Container)) : GoFilepath.WalkFunc :=
  fun path there =>
    let split := GoStrings.Split path "_" in
    let cont := List.last split EmptyString in
    if has_key contMap cont then (there, [], None)
    else let '(there', err) := GoOS.Remove path there in
         (there', [ERemove path], err).

(** Whether the function removes what is at [path]. *)
Definition stale (contMap : list (string * Types.Container)) (path : string) : bool :=
  negb (has_key contMap (List.last (GoStrings.Split path "_") EmptyString)).

(** An event that is a call of [os.Remove] on a path the function takes
    for the marker of a container that is gone. *)
Definition removes_stale (contMap : list (string * Types.Container)) (e : event) : Prop :=
  match e with ERemove p => stale contMap p = true | _ => False end.

(** The clean-up at the end of [Run]: the inventory directory afterwards,
    the events, the error of the walk. *)
Definition InventoryGC (contMap : list (string * Types.Container)) (dir : string)
    (inventory : option GoOS.node) : option GoOS.node * list event * option string :=
  GoFilepath.Walk (cleanup_walkFn contMap) dir inventory.

(** The [ContainerCheck] that [Run] builds for one container. *)
Definition container_check (cfg : Config) (identity : string) (c : Types.Container)
  : ContainerCheck :=
  let c := if String.eqb (Types.Host c) ""
           then {| Types.ID := Types.ID c; Types.DockerID := Types.DockerID c;
                   Types.IP := Types.IP c; Types.Host := "localhost";
                   Types.PrimaryPort := Types.PrimaryPort c;
                   Types.SecondaryPorts := Types.SecondaryPorts c;
                   Types.SSHPort := Types.SSHPort c; Types.App := Types.App c;
                   Types.Sha := Types.Sha c; Types.Env := Types.Env c;
                   Types.Manifest_ := Types.Manifest_ c |}
           else c in
  {| cc_Name := CheckName cfg +:+ "_" +:+ Types.ID c; cc_User := SSHUser cfg;
     cc_Identity := identity; cc_Directory := CheckDir cfg;
     cc_Inventory := InventoryDir cfg; container := c |}.

(** The line [Run] prints when the clean-up walk ends with an error. *)
Definition cleanup_report (err : option string) : list event :=
  match err with
  | Some e => [EPrint ("Error iterating over inventory to delete obsolete markers. Error:"
                       +:+ LF +:+ e +:+ LF)]
  | None => []
  end.

(** The re-inventory command of [Run]. *)
Definition reinventory : GoExec.Cmd := GoExec.Command "/usr/bin/cmk_admin -I" [].

(** [Run()]: the events of the goroutine that runs it, in program order,
    and the inventory directory as the clean-up leaves it. What the
    goroutines started here do is in [ContainerCheck.Run]. *)
Definition Run (w : World) (opts : Opts) : list event * option GoOS.node :=
  let cfg := overlayConfig w opts config in
  if GoOS.IsNotExist (Stat w (ContainerFile cfg)) then
    ([EStat (ContainerFile cfg);
      EPrint (GoFmt.d OK +:+ " " +:+ CheckName cfg +:+ " - Directory does not exists "
              +:+ ContainerFile cfg +:+ LF)],
     Inventory w)
  else
    match RetrieveObject w (ContainerFile cfg) with
    | inr err =>
        ([EStat (ContainerFile cfg); ERetrieve (ContainerFile cfg);
          EPrint (GoFmt.d Critical +:+ " " +:+ CheckName cfg +:+ " - Could not retrieve "
                  +:+ ContainerFile cfg +:+ ": " +:+ err +:+ LF)],
         Inventory w)
    | inl contMap =>
        let identity := GoStrings.Replace1 (SSHIdentity cfg) "~" (Getenv w "HOME") in
        let t := int64 (TimeoutDuration cfg * Second) in
        let spawn := map (fun kc => EGo (go_ContainerCheck_Run
                                           (container_check cfg identity kc.2) t)) contMap in
        let wait := map (fun _ => ERecv ch_run_done) contMap in
        let '(inventory', ev, err) := InventoryGC contMap (InventoryDir cfg) (Inventory w) in
        ([EStat (ContainerFile cfg); ERetrieve (ContainerFile cfg);
          EPrint (GoFmt.d OK +:+ " " +:+ CheckName cfg +:+ " - Able to open "
                  +:+ ContainerFile cfg +:+ LF)]
         ++ spawn ++ [EOutput reinventory] ++ wait ++ ev ++ cleanup_report err,
         inventory')
    end.

(* ================================================================== *)
(** * Names for what the monitor computes                              *)
(* ================================================================== *)

(** Whether byte [c] occurs in [s]. *)
Fixpoint has_byte (s : string) (c : ascii) : bool :=
  match s with
  | EmptyString => false
  | String b r => Ascii.eqb b c || has_byte r c
  end.

(** The remote listing of the check scripts of a container: the command
    [ContainerCheck.Run] starts with. *)
Definition listing (c : ContainerCheck) : GoExec.Cmd :=
  silentSshCmd (cc_User c) (cc_Identity c) (Types.Host (container c))
    ("ls " +:+ cc_Directory c) (Types.SSHPort (container c)).

(** The marker file of a script of a container: [inventoryPath] in
    [checkAll]. *)
Definition marker (c : ContainerCheck) (script : string) : string :=
  GoPath.Join (cc_Inventory c)
    (hd EmptyString (GoStrings.Split script ".") +:+ "_" +:+ Types.ID (container c)).

(** Whether [os.Stat] finds no marker for a script: the test of
    [checkAll]. *)
Definition unregistered (w : World) (created : gset string) (c : ContainerCheck)
    (script : string) : bool :=
  GoOS.IsNotExist (os_Stat w created (marker c script)).

(** The line [checkAll] prints when a registration fails. *)
Definition registration_failure (c : ContainerCheck) (script err : string) : string :=
  "Failure to update contact group for service "
  +:+ Service (ContainerCheck.serviceCheck c script) +:+ ". Error:" +:+ LF +:+ err +:+ LF.

(** The registration command [checkAll] runs for a script. *)
Definition registration_of (c : ContainerCheck) (grp script : string) : GoExec.Cmd :=
  ContainerCheck.registration
    (hd EmptyString (GoStrings.Split script ".") +:+ "_" +:+ Types.ID (container c)) grp.

(* ================================================================== *)
(** * The wording of the design document                               *)
(* ================================================================== *)

(** "The second whitespace-delimited token" of a check's output. *)
Definition second_token (msg : string) : option string :=
  GoStrings.Fields msg !! 1%nat.

(** "The base name of the script without its file extension". *)
Definition name_without_extension (script : string) : string :=
  let base := GoPath.Base script in
  GoStrings.TrimSuffix base (GoPath.Ext base).

(* ================================================================== *)
(** * Sample inputs                                                    *)
(* ================================================================== *)
Module Sample.

Definition manifest : Types.Manifest := {|
  Types.Name := "app"; Types.Description := ""; Types.Instances := 1;
  Types.CPUShares := 1; Types.MemoryLimit := 256; Types.Image := "";
  Types.AppType := ""; Types.RunCommands := []; Types.Deps := ∅ |}.

(** A container on host [h1]. *)
Definition a_container (id : string) : Types.Container := {|
  Types.ID := id; Types.DockerID := ""; Types.IP := ""; Types.Host := "h1";
  Types.PrimaryPort := 8080; Types.SecondaryPorts := []; Types.SSHPort := 22;
  Types.App := "app"; Types.Sha := ""; Types.Env := "";
  Types.Manifest_ := Some manifest |}.

(** Its check, as [Run] builds it from the default configuration. *)
Definition check (id : string) : ContainerCheck :=
  container_check config (SSHIdentity config) (a_container id).

Definition opts : Opts := {|
  opt_ContainerFile := ""; opt_SSHIdentity := ""; opt_SSHUser := "";
  opt_CheckName := ""; opt_CheckDir := ""; opt_TimeoutDuration := 0;
  opt_Config := "/etc/atlantis/supervisor/monitor.toml" |}.

(** A world in which every [ssh] prints [out] after [took] nanoseconds,
    every other subprocess succeeds when [admin_ok] says so, the
    container file holds [contMap], and [inventory] is what is in the
    inventory directory. *)
Definition world (out : string) (took : Z) (admin_ok : bool)
    (contMap : list (string * Types.Container)) (inventory : option GoOS.node) : World := {|
  Output := fun c => if String.eqb (GoExec.Path c) "ssh" then inl out
                     else if admin_ok then inl EmptyString
                     else inr "fork/exec: no such file or directory";
  Elapsed := fun _ => took;
  Stat := fun p => if String.eqb p (ContainerFile config) then GoOS.StatOk
                   else GoOS.StatNotExist;
  Creatable := fun _ => true;
  RetrieveObject := fun _ => inl contMap;
  DecodeFile := fun _ c => c;
  Getenv := fun _ => "/root";
  Inventory := inventory |}.

(** The same with no container file. *)
Definition world_without_file : World := {|
  Output := fun _ => inl EmptyString;
  Elapsed := fun _ => 0;
  Stat := fun _ => GoOS.StatNotExist;
  Creatable := fun _ => true;
  RetrieveObject := fun _ => inr "open: no such file or directory";
  DecodeFile := fun _ c => c;
  Getenv := fun _ => "/root";
  Inventory := None |}.

(** A world in which every subprocess succeeds, printing nothing, but for
    [rejected], which fails. *)
Definition world_rejecting (rejected : GoExec.Cmd) : World := {|
  Output := fun c => if decide (c = rejected) then inr "exit status 1"
                     else inl EmptyString;
  Elapsed := fun _ => Second;
  Stat := fun p => if String.eqb p (ContainerFile config) then GoOS.StatOk
                   else GoOS.StatNotExist;
  Creatable := fun _ => true;
  RetrieveObject := fun _ => inl [];
  DecodeFile := fun _ c => c;
  Getenv := fun _ => "/root";
  Inventory := None |}.

Definition cpu_c1 : ServiceCheck := ContainerCheck.serviceCheck (check "c1") "cpu.sh".

End Sample.

(* ================================================================== *)
(** * Properties                                                       *)
(* ================================================================== *)

(** ** Strings *)

Lemma append_nil_l (s : string) : "" +:+ s = s.
Proof. reflexivity. Qed.

Lemma append_cons (c : ascii) (a s : string) : String c a +:+ s = String c (a +:+ s).
Proof. reflexivity. Qed.

(** ** Cancellation in strings *)

Lemma append_inj_l (a x y : string) : a +:+ x = a +:+ y → x = y.
Proof. induction a as [|c a IH]; [done|]. rewrite !append_cons. intros [= H]. auto. Qed.

Lemma length_append (x b : string) :
  String.length (x +:+ b) = (String.length x + String.length b)%nat.
Proof. induction x as [|c x IH]; [done|]. rewrite append_cons. cbn. by rewrite IH. Qed.

Lemma append_inj_r (b x : string) : ∀ y, x +:+ b = y +:+ b → x = y.
Proof.
  induction x as [|c x IH]; intros [|d y] H; [done| | |].
  - apply (f_equal String.length) in H. rewrite append_cons, append_nil_l in H. cbn in H.
    rewrite length_append in H. lia.
  - apply (f_equal String.length) in H. rewrite append_cons, append_nil_l in H. cbn in H.
    rewrite length_append in H. lia.
  - rewrite !append_cons in H. injection H as -> H. f_equal. by apply IH.
Qed.

Lemma append_not_empty (x y : string) (c : ascii) : x +:+ String c y ≠ EmptyString.
Proof. destruct x; [done|]. by rewrite append_cons. Qed.

Lemma append_assoc (a b d : string) : (a +:+ b) +:+ d = a +:+ (b +:+ d).
Proof. induction a as [|x a IH]; [done|]. by rewrite !append_cons, IH. Qed.

Lemma append_nil_r (a : string) : a +:+ "" = a.
Proof. induction a as [|x a IH]; [done|]. by rewrite append_cons, IH. Qed.

Lemma rev_string_app (a b : string) :
  GoStrings.rev_string (a +:+ b) = GoStrings.rev_string b +:+ GoStrings.rev_string a.
Proof.
  induction a as [|x a IH]; cbn [GoStrings.rev_string].
  - by rewrite append_nil_l, append_nil_r.
  - by rewrite append_cons; cbn [GoStrings.rev_string]; rewrite IH, append_assoc.
Qed.

Lemma rev_string_involutive (a : string) : GoStrings.rev_string (GoStrings.rev_string a) = a.
Proof.
  induction a as [|x a IH]; [done|]. cbn [GoStrings.rev_string].
  by rewrite rev_string_app, IH.
Qed.

Lemma has_byte_app (a b : string) (x : ascii) :
  has_byte (a +:+ b) x = has_byte a x || has_byte b x.
Proof.
  induction a as [|y a IH]; [done|]. rewrite append_cons. cbn [has_byte].
  by rewrite IH, orb_assoc.
Qed.

Lemma has_byte_rev (a : string) (x : ascii) :
  has_byte (GoStrings.rev_string a) x = has_byte a x.
Proof.
  induction a as [|y a IH]; [done|]. cbn [GoStrings.rev_string has_byte].
  rewrite has_byte_app, IH. cbn [has_byte]. by rewrite orb_false_r, orb_comm.
Qed.

Lemma strip_prefix_app (p x : string) : GoStrings.strip_prefix p (p +:+ x) = Some x.
Proof.
  induction p as [|y p IH]; [by destruct x|].
  rewrite append_cons. cbn [GoStrings.strip_prefix]. by rewrite Ascii.eqb_refl.
Qed.

(** ** Trimming *)

Lemma length_rev_string (a : string) :
  String.length (GoStrings.rev_string a) = String.length a.
Proof.
  induction a as [|x a IH]; [done|]. cbn [GoStrings.rev_string].
  rewrite length_append, IH. cbn. lia.
Qed.

Lemma strip_prefix_length (p : string) :
  ∀ s rest, GoStrings.strip_prefix p s = Some rest →
            String.length s = (String.length p + String.length rest)%nat.
Proof.
  induction p as [|x p IH]; intros s rest; cbn [GoStrings.strip_prefix].
  - by intros [= ->].
  - destruct s as [|y s]; [done|]. destruct (Ascii.eqb x y); [|done].
    intros H. cbn. by rewrite (IH _ _ H).
Qed.

Lemma strip_rune_shorter (runes : list string) (s rest : string) :
  Forall (fun r => r ≠ EmptyString) runes →
  GoStrings.strip_rune runes s = Some rest →
  (String.length rest < String.length s)%nat.
Proof.
  induction 1 as [|r runes Hr _ IH]; cbn [GoStrings.strip_rune]; [done|].
  destruct (GoStrings.strip_prefix r s) as [rest'|] eqn:E; [|exact IH].
  intros [= ->]. apply strip_prefix_length in E. destruct r; [done|]. cbn in E. lia.
Qed.

(** The rounds allowed are enough: what [trim_left] returns starts with
    no rune of the list. *)
Lemma trim_left_done (runes : list string) :
  Forall (fun r => r ≠ EmptyString) runes →
  ∀ fuel s, (String.length s ≤ fuel)%nat →
            GoStrings.strip_rune runes (GoStrings.trim_left runes fuel s) = None.
Proof.
  intros Hrunes. induction fuel as [|fuel IH]; intros s Hlen.
  - destruct s; [|cbn in Hlen; lia]. cbn [GoStrings.trim_left].
    induction Hrunes as [|[|x r] runes Hr _ IH]; cbn; done.
  - cbn [GoStrings.trim_left].
    destruct (GoStrings.strip_rune runes s) as [rest|] eqn:E; [|exact E].
    apply IH. pose proof (strip_rune_shorter _ _ _ Hrunes E). lia.
Qed.

Lemma space_runes_nonempty : Forall (fun r => r ≠ EmptyString) GoStrings.space_runes.
Proof. unfold GoStrings.space_runes. cbn. repeat constructor; discriminate. Qed.

(** [TrimSpace] leaves no white space at either end. *)
Lemma TrimSpace_trimmed (s : string) :
  GoStrings.strip_rune GoStrings.space_runes (GoStrings.TrimLeftSpace s) = None
  ∧ GoStrings.strip_rune (map GoStrings.rev_string GoStrings.space_runes)
      (GoStrings.rev_string (GoStrings.TrimRightSpace s)) = None.
Proof.
  split.
  - apply trim_left_done; [apply space_runes_nonempty|done].
  - unfold GoStrings.TrimRightSpace. rewrite rev_string_involutive.
    apply trim_left_done; [|by rewrite length_rev_string].
    unfold GoStrings.space_runes. cbn. repeat constructor; discriminate.
Qed.




(** ** Splitting *)
Section Splitting.
Import GoStrings.
Variable sep : ascii.

Lemma Split_nonempty (s : string) : Split s sep ≠ [].
Proof.
  destruct s as [|c r]; simpl; [discriminate|].
  destruct (Ascii.eqb c sep); [discriminate|].
  destruct (Split r sep); discriminate.
Qed.

Lemma SplitN_nonempty (s : string) (n : nat) : SplitN s sep (S n) ≠ [].
Proof.
  destruct s as [|c r]; destruct n as [|n]; simpl; try discriminate.
  destruct (Ascii.eqb c sep); [discriminate|].
  destruct (SplitN r sep (S (S n))); discriminate.
Qed.

(** All but the last of the fields [SplitN] returns are fields of
    [Split]. *)
Lemma SplitN_take (s : string) :
  ∀ n, take n (SplitN s sep (S n)) = take n (Split s sep).
Proof.
  induction s as [|c r IH]; intros [|n]; try reflexivity.
  cbn [SplitN Split].
  destruct (Ascii.eqb c sep).
  - cbn [take]. f_equal. apply IH.
  - specialize (IH (S n)).
    pose proof (SplitN_nonempty r (S n)) as Hn.
    pose proof (Split_nonempty r) as Hs.
    destruct (SplitN r sep (S (S n))) as [|h t]; [done|].
    destruct (Split r sep) as [|h' t']; [done|].
    cbn [take] in *. congruence.
Qed.

Lemma Split_no_sep (a : string) : has_byte a sep = false → Split a sep = [a].
Proof.
  induction a as [|c r IH]; [done|]. cbn [has_byte Split].
  destruct (Ascii.eqb c sep); [done|]. cbn [orb]. intros H. by rewrite IH.
Qed.

Lemma Split_app_sep (a r : string) :
  has_byte a sep = false → Split (a +:+ String sep r) sep = a :: Split r sep.
Proof.
  induction a as [|c a IH]; cbn [has_byte].
  - intros _. rewrite append_nil_l. cbn [Split]. by rewrite Ascii.eqb_refl.
  - rewrite append_cons. cbn [Split].
    destruct (Ascii.eqb c sep); [done|]. cbn [orb]. intros H. by rewrite IH.
Qed.

Lemma Split_app_sep_lookup (a r : string) :
  has_byte a sep = false →
  Split (a +:+ String sep r) sep !! 1%nat = head (Split r sep).
Proof. intros H. rewrite Split_app_sep by done. by destruct (Split r sep). Qed.

Lemma Split_no_sep_lookup (a : string) :
  has_byte a sep = false → Split a sep !! 1%nat = None.
Proof. intros H. by rewrite Split_no_sep. Qed.
End Splitting.

(** ** [validate] *)

Lemma validate_Split (s : ServiceCheck) (msg : string) :
  ServiceCheck.validate s msg =
    match GoStrings.Split msg " " !! 1%nat with
    | Some f => if String.eqb f (Service s) then msg else ServiceCheck.errMsg s None
    | None => ServiceCheck.errMsg s None
    end.
Proof.
  unfold ServiceCheck.validate.
  pose proof (SplitN_take " " msg 3) as H.
  pose proof (SplitN_nonempty " " msg 3) as Hn.
  pose proof (Split_nonempty " " msg) as Hs.
  destruct (GoStrings.SplitN msg " " 4) as [|m0 [|m1 m]];
    destruct (GoStrings.Split msg " ") as [|f0 [|f1 f]]; cbn in *; by simplify_eq.
Qed.

(** Every string has no space, or a space-free part before its first
    space. *)
Lemma first_space (sep : ascii) (msg : string) :
  has_byte msg sep = false ∨
  ∃ a r, msg = a +:+ String sep r ∧ has_byte a sep = false.
Proof.
  induction msg as [|c m IH]; [by left|].
  cbn [has_byte]. destruct (Ascii.eqb_spec c sep) as [->|Hc].
  - right. by exists EmptyString, m.
  - destruct IH as [IH|(a & r & -> & Ha)]; [by left|].
    right. exists (String c a), r. split; [done|].
    cbn [has_byte]. destruct (Ascii.eqb_spec c sep); [done|]. done.
Qed.

(** The three shapes of an output, as [validate] tells them apart: no
    space; one space; two spaces or more. *)
Lemma message_shapes (msg : string) :
  has_byte msg " " = false
  ∨ (∃ a f, msg = a +:+ " " +:+ f
            ∧ has_byte a " " = false ∧ has_byte f " " = false)
  ∨ (∃ a f rest, msg = a +:+ " " +:+ f +:+ " " +:+ rest
                 ∧ has_byte a " " = false ∧ has_byte f " " = false).
Proof.
  destruct (first_space " " msg) as [H|(a & r & -> & Ha)]; [by left|].
  right. destruct (first_space " " r) as [H|(f & rest & -> & Hf)].
  - left. by exists a, r.
  - right. by exists a, f, rest.
Qed.

(** C2, as the code has it. [validate] cuts the output at single spaces:
    an output without a space is replaced by the generic Critical line
    [2 <service> - Error encountered while monitoring the service]; an
    output [a f] or [a f rest], where [a] and [f] hold no space, is
    returned unchanged when [f] is the service name and replaced by the
    generic line otherwise. (By [message_shapes] there is no other
    output.) *)
Theorem validate_second_field (s : ServiceCheck) (a f rest : string)
    (Ha : has_byte a " " = false) (Hf : has_byte f " " = false) :
  ServiceCheck.errMsg s None
    = "2 " +:+ Service s +:+ " - Error encountered while monitoring the service" +:+ LF
  ∧ ServiceCheck.validate s a = ServiceCheck.errMsg s None
  ∧ ServiceCheck.validate s (a +:+ " " +:+ f)
    = (if String.eqb f (Service s) then a +:+ " " +:+ f else ServiceCheck.errMsg s None)
  ∧ ServiceCheck.validate s (a +:+ " " +:+ f +:+ " " +:+ rest)
    = (if String.eqb f (Service s) then a +:+ " " +:+ f +:+ " " +:+ rest
       else ServiceCheck.errMsg s None).
Proof.
  split; [reflexivity|]. rewrite !validate_Split.
  split; [by rewrite Split_no_sep_lookup|].
  change (" " +:+ ?x) with (String " " x).
  rewrite (Split_app_sep_lookup " " a f Ha).
  rewrite (Split_app_sep_lookup " " a (f +:+ " " +:+ rest) Ha).
  change (" " +:+ rest) with (String " " rest).
  rewrite (Split_no_sep " " f Hf), (Split_app_sep " " f rest Hf). done.
Qed.

Lemma validate_second_field_witness :
  ServiceCheck.validate Sample.cpu_c1 ("0" +:+ " " +:+ "cpu_c1" +:+ " " +:+ "- fine" +:+ LF)
  = "0" +:+ " " +:+ "cpu_c1" +:+ " " +:+ "- fine" +:+ LF.
Proof.
  exact (proj2 (proj2 (proj2
    (validate_second_field Sample.cpu_c1 "0" "cpu_c1" ("- fine" +:+ LF) eq_refl eq_refl)))).
Defined.

(** C2, as stated, fails: after two spaces the second white-space token
    is the service name, and yet the output is replaced. *)
Lemma validate_whitespace_counterexample :
  second_token "0  cpu_c1 - fine" = Some (Service Sample.cpu_c1)
  ∧ ServiceCheck.validate Sample.cpu_c1 "0  cpu_c1 - fine" ≠ "0  cpu_c1 - fine".
Proof. split; [reflexivity|]. vm_compute. discriminate. Qed.

(** ** [checkWithTimeout] *)

(** Decide the comparisons of times in the goal. *)
Ltac race :=
  repeat (cbn [ServiceCheck.interleave until app fst snd orb andb];
          match goal with
          | |- context [?a <? ?b] => destruct (Z.ltb_spec a b); try lia
          | |- context [?a =? ?b] => destruct (Z.eqb_spec a b); try lia
          | |- context [?a <=? ?b] => destruct (Z.leb_spec a b); try lia
          end);
  cbn [ServiceCheck.interleave until app fst snd orb andb].

(** C1, as the code has it. Let the check take [d > 0] and the timeout be
    [t], both counted from [now].
    - [d > t]: the fixed line [2 <service> - Timeout occured during check]
      is printed at [max 0 t], no earlier than [t], and the one completion
      signal is sent then; the check is not stopped, and its own line
      follows at [d]: up to then the timeout line is the only line.
    - [d < t]: the only line is the check's own (the validated output, or
      the error line when the command failed), printed at [d], and the one
      completion signal is sent then.
    - [d = t]: one completion signal; the check's own line is printed,
      alone or with the timeout line before or after it. *)
Theorem checkWithTimeout_race (w : World) (s : ServiceCheck) (t : Z)
    (sel : ServiceCheck.tie) (now : Z) (Hd : 0 < Elapsed w (ServiceCheck.cmd s)) :
  let d := Elapsed w (ServiceCheck.cmd s) in
  let tl := ServiceCheck.checkWithTimeout w s t sel now in
  let timeout := ServiceCheck.timeOutMsg s in
  let own := ServiceCheck.result_line w s in
  timeout = "2 " +:+ Service s +:+ " - Timeout occured during check" +:+ LF
  ∧ own = match Output w (ServiceCheck.cmd s) with
          | inl out => ServiceCheck.validate s out
          | inr err => ServiceCheck.errMsg s (Some err)
          end
  ∧ sent ch_results tl.*2 = 1%nat
  ∧ (t < d →
       prints tl.*2 = [timeout; own]
       ∧ printed_at timeout tl = Some (now + Z.max 0 t)
       ∧ now + t ≤ now + Z.max 0 t
       ∧ sent_at ch_results tl = Some (now + Z.max 0 t)
       ∧ ∀ h, now + Z.max 0 t ≤ h < now + d → prints (until h tl) = [timeout])
  ∧ (d < t →
       prints tl.*2 = [own]
       ∧ printed_at own tl = Some (now + d)
       ∧ sent_at ch_results tl = Some (now + d))
  ∧ (d = t →
       prints tl.*2 = [own] ∨ prints tl.*2 = [timeout; own]
       ∨ prints tl.*2 = [own; timeout]).
Proof.
  intros d tl timeout own. subst d tl timeout own.
  unfold ServiceCheck.checkWithTimeout, ServiceCheck.runCheck.
  set (d := Elapsed w (ServiceCheck.cmd s)) in *.
  split; [reflexivity|].
  split; [by unfold ServiceCheck.result_line; destruct (Output w _)|].
  split; [destruct sel; race; reflexivity|].
  split; [|split].
  - intros Ht. split; [destruct sel; race; reflexivity|].
    split. { destruct sel; race; cbn; by rewrite String.eqb_refl. }
    split; [lia|]. split; [destruct sel; race; reflexivity|].
    intros h Hh. destruct sel; race; reflexivity.
  - intros Ht. split; [destruct sel; race; reflexivity|].
    split; [|destruct sel; race; reflexivity].
    destruct sel; race; cbn; by rewrite String.eqb_refl.
  - intros Ht. destruct sel; race; cbn; auto.
Qed.

Lemma checkWithTimeout_race_witness :
  prints (until (5 * Second)
            (ServiceCheck.checkWithTimeout
               (Sample.world ("0 cpu_c1 - fine" +:+ LF) (10 * Second) true [] None)
               Sample.cpu_c1 (5 * Second) ServiceCheck.TieDone 0))
  = ["2 cpu_c1 - Timeout occured during check" +:+ LF].
Proof.
  pose proof (checkWithTimeout_race
                (Sample.world ("0 cpu_c1 - fine" +:+ LF) (10 * Second) true [] None)
                Sample.cpu_c1 (5 * Second) ServiceCheck.TieDone 0 eq_refl) as H.
  cbv zeta in H.
  destruct H as (_ & _ & _ & H & _).
  destruct (H eq_refl) as (_ & _ & _ & _ & Hh).
  apply (Hh (5 * Second)). change (Elapsed _ _) with (10 * Second). unfold Second. lia.
Defined.

(** C1, as stated, fails: a check of 10 s under a timeout of 5 s leaves
    two lines in a process that lives for 10 s, the timeout line and the
    check's own. *)
Lemma checkWithTimeout_counterexample :
  let w := Sample.world ("0 cpu_c1 - fine" +:+ LF) (10 * Second) true [] None in
  let tl := ServiceCheck.checkWithTimeout w Sample.cpu_c1 (5 * Second) ServiceCheck.TieDone 0 in
  Elapsed w (ServiceCheck.cmd Sample.cpu_c1) > 5 * Second
  ∧ prints (until (10 * Second) tl)
    = [ServiceCheck.timeOutMsg Sample.cpu_c1; "0 cpu_c1 - fine" +:+ LF]
  ∧ prints (until (10 * Second) tl) ≠ [ServiceCheck.timeOutMsg Sample.cpu_c1].
Proof. split; [reflexivity|]. split; [reflexivity|]. vm_compute. discriminate. Qed.

(** ** [ContainerCheck.Run] on a container without scripts *)

(** C4, as the code has it. When the remote listing succeeds and is empty
    after trimming, [ContainerCheck.Run] prints one line, the OK line
    [0 <name> - Got checks for container], and nothing else: it registers
    nothing, creates no marker, starts no check, and sends its completion
    signal once. *)
Theorem Run_no_scripts (w : World) (c : ContainerCheck) (t : Z) (created : gset string)
    (o : string) (Hls : Output w (listing c) = inl o)
    (Hblank : GoStrings.TrimSpace o = EmptyString) :
  let '(ev, created') := ContainerCheck.Run w c t created in
  ev = [EOutput (listing c);
        EPrint ("0 " +:+ cc_Name c +:+ " - Got checks for container" +:+ LF);
        ESend ch_run_done]
  ∧ prints ev = ["0 " +:+ cc_Name c +:+ " - Got checks for container" +:+ LF]
  ∧ started ev = []
  ∧ outputs ev = [listing c]
  ∧ sent ch_run_done ev = 1%nat
  ∧ created' = created.
Proof.
  unfold ContainerCheck.Run. fold (listing c). rewrite Hls, Hblank. cbn.
  repeat split; reflexivity.
Qed.

Lemma Run_no_scripts_witness :
  prints (ContainerCheck.Run (Sample.world ("  " +:+ LF) Second true [] None)
            (Sample.check "c1") (5 * Second) ∅).1
  = ["0 ContainerMonitor_c1 - Got checks for container" +:+ LF].
Proof.
  pose proof (Run_no_scripts (Sample.world ("  " +:+ LF) Second true [] None)
                (Sample.check "c1") (5 * Second) ∅ ("  " +:+ LF) eq_refl eq_refl) as H.
  destruct (ContainerCheck.Run _ _ _ _) as [ev created'].
  exact (proj1 (proj2 H)).
Defined.

(** C4, as stated, fails: with an empty listing the container's check
    still prints a line. *)
Lemma Run_no_scripts_counterexample :
  let w := Sample.world EmptyString Second true [] None in
  Output w (listing (Sample.check "c1")) = inl EmptyString
  ∧ GoStrings.TrimSpace EmptyString = EmptyString
  ∧ prints (ContainerCheck.Run w (Sample.check "c1") (5 * Second) ∅).1 ≠ [].
Proof. split; [reflexivity|]. split; [reflexivity|]. vm_compute. discriminate. Qed.

(** ** The clean-up walk *)

Lemma node_ind (P : GoOS.node → Prop) :
  P GoOS.File →
  (∀ entries, Forall (fun e => P e.2) entries → P (GoOS.Dir entries)) →
  ∀ n, P n.
Proof.
  intros HF HD. fix IH 1. intros [|entries]; [exact HF|].
  apply HD. induction entries as [|[name child] entries IHentries]; constructor.
  - apply IH.
  - exact IHentries.
Qed.

Lemma cleanup_walkFn_removes contMap path there :
  Forall is_remove (cleanup_walkFn contMap path there).1.2.
Proof.
  unfold cleanup_walkFn. destruct (has_key _ _); [constructor|].
  destruct (GoOS.Remove path there). by repeat constructor.
Qed.

(** The clean-up does nothing but remove. *)
Lemma walk_removes contMap (n : GoOS.node) :
  ∀ path, Forall is_remove (GoFilepath.walk (cleanup_walkFn contMap) path n).1.2.
Proof.
  induction n as [|entries IH] using node_ind; intros path; cbn [GoFilepath.walk].
  - pose proof (cleanup_walkFn_removes contMap path (Some GoOS.File)) as H.
    destruct (cleanup_walkFn _ _ _) as [[there ev] [e|]]; exact H.
  - pose proof (cleanup_walkFn_removes contMap path (Some (GoOS.Dir entries))) as H.
    destruct (cleanup_walkFn contMap path (Some (GoOS.Dir entries))) as [[there ev] [e|]];
      [exact H|].
    destruct there as [there|].
    + assert (Forall is_remove
                (GoFilepath.walk_entries
                   (fun p child => GoFilepath.walk (cleanup_walkFn contMap) p child)
                   path entries).1.2) as Hes.
      { clear H. induction IH as [|[name child] es Hc _ IHes]; [constructor|].
        cbn [GoFilepath.walk_entries].
        specialize (Hc (GoPath.Join path name)). cbn [snd] in Hc.
        destruct (GoFilepath.walk _ _ child) as [[st ev1] [e|]]; [exact Hc|].
        destruct (GoFilepath.walk_entries _ _ es) as [[rest' ev2] err2].
        apply Forall_app; split; [exact Hc|exact IHes]. }
      destruct (GoFilepath.walk_entries _ _ entries) as [[entries' ev'] err'].
      apply Forall_app; split; [exact H|exact Hes].
    + pose proof (cleanup_walkFn_removes contMap path None) as H'.
      destruct (cleanup_walkFn contMap path None) as [[there' ev'] err'].
      apply Forall_app; split; [exact H|exact H'].
Qed.

Lemma InventoryGC_removes contMap dir inventory :
  Forall is_remove (InventoryGC contMap dir inventory).1.2.
Proof.
  unfold InventoryGC, GoFilepath.Walk. destruct inventory as [n|].
  - apply walk_removes.
  - apply cleanup_walkFn_removes.
Qed.


Lemma removes_started ev : Forall is_remove ev → started ev = [].
Proof. induction 1 as [|[] ev H _ IH]; cbn in *; done. Qed.


Lemma removes_prints ev : Forall is_remove ev → prints ev = [].
Proof. induction 1 as [|[] ev H _ IH]; cbn in *; done. Qed.

(** ** [Run] *)

(** C7. When the container file does not exist, [Run] prints one line, the
    OK line [0 <check name> - Directory does not exists <path>], and
    returns: nothing is decoded, no goroutine is started, no subprocess is
    run, nothing is removed from the inventory directory. *)
Theorem Run_without_container_file (w : World) (opts : Opts)
    (Habsent : Stat w (ContainerFile (overlayConfig w opts config)) = GoOS.StatNotExist) :
  let cfg := overlayConfig w opts config in
  let line := "0 " +:+ CheckName cfg +:+ " - Directory does not exists "
              +:+ ContainerFile cfg +:+ LF in
  Run w opts = ([EStat (ContainerFile cfg); EPrint line], Inventory w)
  ∧ prints (fst (Run w opts)) = [line]
  ∧ started (fst (Run w opts)) = []
  ∧ outputs (fst (Run w opts)) = []
  ∧ (ERetrieve (ContainerFile cfg) ∉ fst (Run w opts))
  ∧ (∀ p, ERemove p ∉ fst (Run w opts)).
Proof.
  intros cfg line. subst cfg line. unfold Run. rewrite Habsent. cbn [GoOS.IsNotExist].
  split; [reflexivity|]. cbn [fst prints started outputs].
  repeat split; try reflexivity.
  - intros H. repeat (apply elem_of_cons in H as [H|H]; [discriminate|]).
    by apply elem_of_nil in H.
  - intros p H. repeat (apply elem_of_cons in H as [H|H]; [discriminate|]).
    by apply elem_of_nil in H.
Qed.

Lemma Run_without_container_file_witness :
  prints (fst (Run Sample.world_without_file Sample.opts))
  = ["0 ContainerMonitor - Directory does not exists /etc/atlantis/supervisor/save/containers"
     +:+ LF].
Proof.
  exact (proj1 (proj2
    (Run_without_container_file Sample.world_without_file Sample.opts eq_refl))).
Defined.


Lemma started_app (a b : list event) : started (a ++ b) = started a ++ started b.
Proof. induction a as [|[] a IH]; cbn; by rewrite ?IH. Qed.



Section Spawned.
Context {A : Type} (g : A → goroutine).

Lemma started_spawn (l : list A) : started (map (fun x => EGo (g x)) l) = map g l.
Proof. induction l as [|x l IH]; cbn; by rewrite ?IH. Qed.



Lemma received_wait (l : list A) :
  received ch_run_done (map (fun _ => ERecv ch_run_done) l) = length l.
Proof. induction l as [|x l IH]; cbn; by rewrite ?IH. Qed.


Lemma started_wait (l : list A) : started (map (fun _ => ERecv ch_run_done) l) = [].
Proof. induction l as [|x l IH]; cbn; by rewrite ?IH. Qed.
End Spawned.


Lemma cleanup_report_quiet err :
  outputs (cleanup_report err) = [] ∧ started (cleanup_report err) = []
  ∧ received ch_run_done (cleanup_report err) = O.
Proof. by destruct err. Qed.




(** ** The commands of the alerting backend *)








(** ** The clean-up of the inventory directory *)

(** X15. The walk starts at the inventory directory itself. When the text after
    the last [_] of its path is no container id and it holds a marker, the
    directory cannot be removed, and the error ends the walk before any
    marker is looked at. *)
Lemma InventoryGC_stops_at_root contMap (dir : string) (entries : list (string * GoOS.node)) :
  has_key contMap (List.last (GoStrings.Split dir "_") EmptyString) = false →
  entries ≠ [] →
  InventoryGC contMap dir (Some (GoOS.Dir entries))
  = (Some (GoOS.Dir entries), [ERemove dir],
     Some ("remove " +:+ dir +:+ ": directory not empty")).
Proof.
  intros Hkey Hne. unfold InventoryGC, GoFilepath.Walk. cbn [GoFilepath.walk].
  unfold cleanup_walkFn at 1. rewrite Hkey.
  destruct entries as [|e entries]; [done|]. reflexivity.
Qed.

(** A marker whose path ends in [_<id>] for a container [id] of the map
    is never removed. *)
Lemma cleanup_walkFn_keeps contMap (path : string) (there : option GoOS.node) :
  has_key contMap (List.last (GoStrings.Split path "_") EmptyString) = true →
  cleanup_walkFn contMap path there = (there, [], None).
Proof. intros H. unfold cleanup_walkFn. by rewrite H. Qed.

(** X14. Past the root the walk does what it is meant to do. When the path of
    the inventory directory does end in [_<id>] for a container of the map
    and the directory holds files only, exactly the markers that name no
    container of the map are removed. *)
Lemma InventoryGC_flat contMap (dir : string) (names : list string) :
  stale contMap dir = false →
  InventoryGC contMap dir (Some (GoOS.Dir (map (fun n => (n, GoOS.File)) names)))
  = (Some (GoOS.Dir (map (fun n => (n, GoOS.File))
                       (List.filter (fun n => negb (stale contMap (GoPath.Join dir n))) names))),
     map (fun n => ERemove (GoPath.Join dir n))
       (List.filter (fun n => stale contMap (GoPath.Join dir n)) names),
     None).
Proof.
  unfold stale. intros Hroot. apply negb_false_iff in Hroot.
  unfold InventoryGC, GoFilepath.Walk. cbn [GoFilepath.walk].
  rewrite (cleanup_walkFn_keeps _ _ _ Hroot).
  assert (GoFilepath.walk_entries
            (fun p child => GoFilepath.walk (cleanup_walkFn contMap) p child) dir
            (map (fun n => (n, GoOS.File)) names)
          = (map (fun n => (n, GoOS.File))
               (List.filter (fun n => negb (negb (has_key contMap
                    (List.last (GoStrings.Split (GoPath.Join dir n) "_") EmptyString)))) names),
             map (fun n => ERemove (GoPath.Join dir n))
               (List.filter (fun n => negb (has_key contMap
                    (List.last (GoStrings.Split (GoPath.Join dir n) "_") EmptyString))) names),
             None)) as ->; [|reflexivity].
  induction names as [|n names IH]; [reflexivity|].
  cbn [map GoFilepath.walk_entries GoFilepath.walk List.filter]. rewrite IH.
  unfold cleanup_walkFn at 1.
  destruct (has_key contMap
              (List.last (GoStrings.Split (GoPath.Join dir n) "_") EmptyString));
    reflexivity.
Qed.

(** C3 on the code: the default inventory directory holds the markers
    [cpu_c1] and [cpu_c2], and only container [c2] is left in the map. The
    marker of [c1] should go; the walk asks to remove the directory first,
    fails, and leaves both markers in place. *)
Theorem InventoryGC_keeps_stale_marker :
  let contMap := [("c2", Sample.a_container "c2")] in
  let inventory := Some (GoOS.Dir [("cpu_c1", GoOS.File); ("cpu_c2", GoOS.File)]) in
  has_key contMap "c1" = false
  ∧ InventoryGC contMap (InventoryDir config) inventory
    = (inventory, [ERemove "/etc/atlantis/supervisor/inventory"],
       Some "remove /etc/atlantis/supervisor/inventory: directory not empty")
  ∧ snd (Run (Sample.world EmptyString Second true contMap inventory) Sample.opts) = inventory
  ∧ snd (Run (Sample.world EmptyString Second true contMap inventory) Sample.opts)
    ≠ Some (GoOS.Dir [("cpu_c2", GoOS.File)]).
Proof. repeat split; try reflexivity. vm_compute. discriminate. Qed.

(** ** Service names *)

(** The name under which [checkAll] registers a script and keeps its
    marker is the name of the check it starts for it. *)
Lemma marker_serviceCheck (c : ContainerCheck) (script : string) :
  marker c script = GoPath.Join (cc_Inventory c) (Service (ContainerCheck.serviceCheck c script)).
Proof. reflexivity. Qed.

Lemma registration_serviceCheck (c : ContainerCheck) (grp script : string) :
  registration_of c grp script
  = ContainerCheck.registration (Service (ContainerCheck.serviceCheck c script)) grp.
Proof. reflexivity. Qed.

(** The remote command of a check: the script in the check directory, the
    primary port, the container id. *)
Lemma serviceCheck_command (c : ContainerCheck) (script : string) :
  Script (ContainerCheck.serviceCheck c script)
  = cc_Directory c +:+ "/" +:+ script +:+ " " +:+ GoFmt.d (Types.PrimaryPort (container c))
    +:+ " " +:+ Types.ID (container c)
  ∧ ServiceCheck.cmd (ContainerCheck.serviceCheck c script)
    = silentSshCmd (cc_User c) (cc_Identity c) (Types.Host (container c))
        (Script (ContainerCheck.serviceCheck c script)) (Types.SSHPort (container c)).
Proof. split; reflexivity. Qed.

(** The service name is what precedes the first dot of the script name,
    then [_], then the container id. *)
Lemma serviceCheck_name (c : ContainerCheck) (a b : string) :
  has_byte a "." = false →
  Service (ContainerCheck.serviceCheck c a) = a +:+ "_" +:+ Types.ID (container c)
  ∧ Service (ContainerCheck.serviceCheck c (a +:+ "." +:+ b))
    = a +:+ "_" +:+ Types.ID (container c).
Proof.
  intros Ha. unfold ContainerCheck.serviceCheck. cbn [Service].
  change ("." +:+ b) with (String "." b).
  by rewrite (Split_no_sep "." a Ha), (Split_app_sep "." a b Ha).
Qed.

(** *** Where the name is the name without the extension *)

Lemma ext_rev_none (x : string) : has_byte x "." = false → GoPath.ext_rev x = None.
Proof.
  induction x as [|y x IH]; [done|]. cbn [has_byte GoPath.ext_rev].
  intros [Hy Hx]%orb_false_elim. rewrite Hy, (IH Hx). by destruct (Ascii.eqb y "/").
Qed.

Lemma ext_rev_dot (x y : string) :
  has_byte x "." = false → has_byte x "/" = false →
  GoPath.ext_rev (x +:+ String "." y) = Some (x +:+ ".").
Proof.
  induction x as [|z x IH]; [done|]. rewrite !append_cons. cbn [has_byte GoPath.ext_rev].
  intros [Hz Hx]%orb_false_elim [Hz' Hx']%orb_false_elim. by rewrite Hz, Hz', (IH Hx Hx').
Qed.

Lemma upto_slash_none (x : string) : has_byte x "/" = false → GoPath.upto_slash x = x.
Proof.
  induction x as [|y x IH]; [done|]. cbn [has_byte GoPath.upto_slash].
  intros [Hy Hx]%orb_false_elim. by rewrite Hy, (IH Hx).
Qed.

Lemma drop_slashes_none (x : string) : has_byte x "/" = false → GoPath.drop_slashes x = x.
Proof.
  destruct x as [|y x]; [done|]. cbn [has_byte GoPath.drop_slashes].
  by intros [-> _]%orb_false_elim.
Qed.

Lemma Base_plain (x : string) : x ≠ EmptyString → has_byte x "/" = false → GoPath.Base x = x.
Proof.
  intros Hne Hx. unfold GoPath.Base.
  destruct (String.eqb_spec x ""); [done|].
  rewrite drop_slashes_none by (by rewrite has_byte_rev).
  destruct (String.eqb_spec (GoStrings.rev_string x) "") as [E|_].
  - apply (f_equal GoStrings.rev_string) in E. by rewrite rev_string_involutive in E.
  - rewrite upto_slash_none by (by rewrite has_byte_rev). apply rev_string_involutive.
Qed.

(** For a script name with one dot at most (and no slash), what precedes
    the first dot is the name without its extension: there the service
    name is the one the comment in [serviceCheck] describes. *)
Lemma serviceCheck_name_one_dot (c : ContainerCheck) (a b : string) :
  has_byte a "." = false → has_byte a "/" = false →
  has_byte b "." = false → has_byte b "/" = false →
  Service (ContainerCheck.serviceCheck c a)
  = name_without_extension a +:+ "_" +:+ Types.ID (container c)
  ∧ Service (ContainerCheck.serviceCheck c (a +:+ "." +:+ b))
    = name_without_extension (a +:+ "." +:+ b) +:+ "_" +:+ Types.ID (container c).
Proof.
  intros Ha Ha' Hb Hb'. destruct (serviceCheck_name c a b Ha) as [-> ->].
  split; f_equal; symmetry; unfold name_without_extension.
  - destruct a as [|x a]; [reflexivity|].
    rewrite Base_plain by done. unfold GoPath.Ext.
    rewrite ext_rev_none by (by rewrite has_byte_rev).
    unfold GoStrings.TrimSuffix. cbn [GoStrings.rev_string GoStrings.strip_prefix].
    apply (rev_string_involutive (String x a)).
  - change ("." +:+ b) with (String "." b).
    rewrite Base_plain.
    2:{ apply append_not_empty. }
    2:{ rewrite has_byte_app. cbn [has_byte]. by rewrite Ha', Hb'. }
    unfold GoPath.Ext, GoStrings.TrimSuffix.
    rewrite rev_string_app. cbn [GoStrings.rev_string].
    rewrite append_assoc, append_cons, append_nil_l.
    rewrite ext_rev_dot by (by rewrite has_byte_rev).
    rewrite rev_string_involutive.
    rewrite <- (append_nil_l (GoStrings.rev_string a)) at 1.
    rewrite <- append_cons, <- append_assoc.
    by rewrite strip_prefix_app, rev_string_involutive.
Qed.

(** C9 on the code: for the script [cpu.v2.sh] of container [c1] the name
    without the extension is [cpu.v2], and the service should be
    [cpu.v2_c1]; the monitor cuts at the first dot and calls it [cpu_c1],
    the name it also gives to [cpu.sh]. The command is as the claim has
    it. *)
Theorem serviceCheck_two_dots :
  let c := Sample.check "c1" in
  name_without_extension "cpu.v2.sh" +:+ "_" +:+ Types.ID (container c) = "cpu.v2_c1"
  ∧ Service (ContainerCheck.serviceCheck c "cpu.v2.sh") = "cpu_c1"
  ∧ Service (ContainerCheck.serviceCheck c "cpu.sh") = "cpu_c1"
  ∧ marker c "cpu.v2.sh" = "/etc/atlantis/supervisor/inventory/cpu_c1"
  ∧ Script (ContainerCheck.serviceCheck c "cpu.v2.sh") = "/check_mk_checks/cpu.v2.sh 8080 c1".
Proof. repeat split; reflexivity. Qed.

(** ** The loop of [checkAll] *)
Section Loop.
Variables (w : World) (c : ContainerCheck) (grp : string) (t : Z).

Let loop := ContainerCheck.checkAll_loop w c grp t.
Let spawn (s : string) : event := EGo (go_checkWithTimeout (ContainerCheck.serviceCheck c s) t).

Lemma loop_cons (s : string) (rest : list string) (created : gset string) :
  loop (s :: rest) created
  = if unregistered w created c s then
      match Output w (registration_of c grp s) with
      | inr err =>
          ([EStat (marker c s); EOutput (registration_of c grp s);
            EPrint (registration_failure c s err)], created, false)
      | inl _ =>
          let '(ev, created', finished) := loop rest (os_Create w created (marker c s)) in
          (EStat (marker c s) :: EOutput (registration_of c grp s)
             :: ECreate (marker c s) :: spawn s :: ev, created', finished)
      end
    else
      let '(ev, created', finished) := loop rest created in
      (EStat (marker c s) :: spawn s :: ev, created', finished).
Proof. reflexivity. Qed.

Lemma unregistered_spec (created : gset string) (s : string) :
  unregistered w created c s = true
  ↔ (marker c s ∉ created) ∧ GoOS.IsNotExist (Stat w (marker c s)) = true.
Proof.
  unfold unregistered, os_Stat. case_bool_decide as H; cbn.
  - split; [discriminate|]. intros [H' _]. by destruct H'.
  - split; [by intros ->|]. by intros [_ ->].
Qed.

Lemma os_Create_spec (created : gset string) (p q : string) :
  q ∈ os_Create w created p ↔ q ∈ created ∨ (q = p ∧ Creatable w p = true).
Proof.
  unfold os_Create. destruct (Creatable w p).
  - rewrite elem_of_union, elem_of_singleton. split.
    + intros [->|H]; [by right|by left].
    + intros [H|[-> _]]; [by right|by left].
  - split; [by left|]. by intros [H|[_ H]].
Qed.

(** What the loop leaves behind: what was there, and markers of its
    scripts that could be created. *)
Lemma loop_created (scripts : list string) :
  ∀ created p,
    p ∈ (loop scripts created).1.2 →
    p ∈ created ∨ (Creatable w p = true ∧ ∃ s, s ∈ scripts ∧ p = marker c s).
Proof.
  induction scripts as [|s rest IH]; intros created p; [by left|].
  rewrite loop_cons. destruct (unregistered w created c s).
  - destruct (Output w _) as [out|err]; [|by left].
    specialize (IH (os_Create w created (marker c s)) p).
    destruct (loop rest _) as [[ev created'] fin]. cbn [fst snd] in *.
    intros Hp. destruct (IH Hp) as [H|(H & s' & Hs' & ->)].
    + apply os_Create_spec in H as [H|[-> H]]; [by left|].
      right. split; [done|]. exists s. split; [by left|done].
    + right. split; [done|]. exists s'. split; [by right|done].
  - specialize (IH created p).
    destruct (loop rest _) as [[ev created'] fin]. cbn [fst snd] in *.
    intros Hp. destruct (IH Hp) as [H|(H & s' & Hs' & ->)]; [by left|].
    right. split; [done|]. exists s'. split; [by right|done].
Qed.

Lemma loop_keeps (scripts : list string) :
  ∀ created p, p ∈ created → p ∈ (loop scripts created).1.2.
Proof.
  induction scripts as [|s rest IH]; intros created p Hp; [done|].
  rewrite loop_cons. destruct (unregistered w created c s).
  - destruct (Output w _) as [out|err]; [|done].
    specialize (IH (os_Create w created (marker c s)) p).
    destruct (loop rest _) as [[ev created'] fin]. cbn [fst snd] in *.
    apply IH, os_Create_spec. by left.
  - specialize (IH created p).
    destruct (loop rest _) as [[ev created'] fin]. cbn [fst snd] in *. auto.
Qed.

End Loop.



Lemma creates_app (a b : list event) : creates (a ++ b) = creates a ++ creates b.
Proof. induction a as [|[] a IH]; cbn; by rewrite ?IH. Qed.

Lemma sent_app ch (a b : list event) : sent ch (a ++ b) = (sent ch a + sent ch b)%nat.
Proof. induction a as [|[] a IH]; cbn; rewrite ?IH; try done. by destruct (chan_eqb _ _). Qed.

Lemma quiet_recv n :
  creates (repeat (ERecv ch_results) n) = [] ∧ started (repeat (ERecv ch_results) n) = []
  ∧ sent ch_run_done (repeat (ERecv ch_results) n) = O
  ∧ prints (repeat (ERecv ch_results) n) = [].
Proof. induction n; cbn; done. Qed.

Section Registration.
Variables (w : World) (c : ContainerCheck) (grp : string) (t : Z).

Let loop := ContainerCheck.checkAll_loop w c grp t.
Let check (s : string) : goroutine := go_checkWithTimeout (ContainerCheck.serviceCheck c s) t.




End Registration.

(** ** Registration happens once *)



(** ** A registration that fails *)
Section Failure.
Variables (w : World) (t : Z).

Lemma loop_app (c : ContainerCheck) (grp : string) (pre rest : list string) :
  ∀ created,
    ContainerCheck.checkAll_loop w c grp t (pre ++ rest) created
    = let '(ev1, created1, fin1) := ContainerCheck.checkAll_loop w c grp t pre created in
      if fin1 then
        let '(ev2, created2, fin2) := ContainerCheck.checkAll_loop w c grp t rest created1 in
        (ev1 ++ ev2, created2, fin2)
      else (ev1, created1, false).
Proof.
  induction pre as [|s pre IH]; intros created.
  { cbn [app ContainerCheck.checkAll_loop].
    by destruct (ContainerCheck.checkAll_loop w c grp t rest created) as [[ev2 cr2] fin2]. }
  rewrite <- app_comm_cons, !loop_cons.
  destruct (unregistered w created c s).
  - destruct (Output w _) as [out|err]; [|done].
    rewrite IH.
    destruct (ContainerCheck.checkAll_loop w c grp t pre _) as [[ev1 cr1] [|]]; [|done].
    by destruct (ContainerCheck.checkAll_loop w c grp t rest cr1) as [[ev2 cr2] fin2].
  - rewrite IH.
    destruct (ContainerCheck.checkAll_loop w c grp t pre _) as [[ev1 cr1] [|]]; [|done].
    by destruct (ContainerCheck.checkAll_loop w c grp t rest cr1) as [[ev2 cr2] fin2].
Qed.

(** A loop that runs to its end starts one check per script. *)
Lemma loop_started (c : ContainerCheck) (grp : string) (scripts : list string) :
  ∀ created ev created',
    ContainerCheck.checkAll_loop w c grp t scripts created = (ev, created', true) →
    started ev
    = map (fun s => go_checkWithTimeout (ContainerCheck.serviceCheck c s) t) scripts.
Proof.
  induction scripts as [|s rest IH]; intros created ev created'.
  { by intros [= <- _]. }
  rewrite loop_cons. destruct (unregistered w created c s).
  - destruct (Output w _) as [out|err]; [|done].
    specialize (IH (os_Create w created (marker c s))).
    destruct (ContainerCheck.checkAll_loop w c grp t rest _) as [[ev2 cr2] fin2].
    intros [= <- _ ->]. cbn. f_equal. by eapply IH.
  - specialize (IH created).
    destruct (ContainerCheck.checkAll_loop w c grp t rest _) as [[ev2 cr2] fin2].
    intros [= <- _ ->]. cbn. f_equal. by eapply IH.
Qed.

(** The events of the loop depend on the files created so far only
    through the markers of its own scripts. *)
Lemma loop_frame (c : ContainerCheck) (grp : string) (scripts : list string) :
  ∀ created1 created2,
    (∀ s, s ∈ scripts → marker c s ∈ created1 ↔ marker c s ∈ created2) →
    (ContainerCheck.checkAll_loop w c grp t scripts created1).1.1
    = (ContainerCheck.checkAll_loop w c grp t scripts created2).1.1
    ∧ (ContainerCheck.checkAll_loop w c grp t scripts created1).2
      = (ContainerCheck.checkAll_loop w c grp t scripts created2).2.
Proof.
  induction scripts as [|s rest IH]; intros created1 created2 Hagree; [done|].
  rewrite !loop_cons.
  assert (unregistered w created1 c s = unregistered w created2 c s) as ->.
  { unfold unregistered, os_Stat.
    pose proof (Hagree s ltac:(by left)) as H.
    repeat case_bool_decide; try done; tauto. }
  destruct (unregistered w created2 c s).
  - destruct (Output w _) as [out|err]; [|done].
    specialize (IH (os_Create w created1 (marker c s)) (os_Create w created2 (marker c s))).
    destruct IH as [IH1 IH2].
    { intros s' Hs'. rewrite !os_Create_spec.
      pose proof (Hagree s' ltac:(by right)) as H. tauto. }
    destruct (ContainerCheck.checkAll_loop w c grp t rest (os_Create w created1 _))
      as [[ev1 cr1] fin1].
    destruct (ContainerCheck.checkAll_loop w c grp t rest (os_Create w created2 _))
      as [[ev2 cr2] fin2].
    cbn [fst snd] in *. by subst.
  - specialize (IH created1 created2). destruct IH as [IH1 IH2].
    { intros s' Hs'. apply Hagree. by right. }
    destruct (ContainerCheck.checkAll_loop w c grp t rest created1) as [[ev1 cr1] fin1].
    destruct (ContainerCheck.checkAll_loop w c grp t rest created2) as [[ev2 cr2] fin2].
    cbn [fst snd] in *. by subst.
Qed.

Lemma checkAll_frame (c : ContainerCheck) (scripts : list string)
    (created1 created2 : gset string) :
  (∀ s, s ∈ scripts → marker c s ∈ created1 ↔ marker c s ∈ created2) →
  fst (ContainerCheck.checkAll w c scripts t created1)
  = fst (ContainerCheck.checkAll w c scripts t created2).
Proof.
  intros Hagree. unfold ContainerCheck.checkAll.
  destruct (ContainerCheck.contact_group c) as [grp|]; [|done].
  destruct (loop_frame c grp scripts created1 created2 Hagree) as [H1 H2].
  destruct (ContainerCheck.checkAll_loop w c grp t scripts created1) as [[ev1 cr1] fin1].
  destruct (ContainerCheck.checkAll_loop w c grp t scripts created2) as [[ev2 cr2] fin2].
  cbn [fst snd] in *. subst. by destruct fin2.
Qed.
End Failure.

(** [checkAll] sends nothing on the channel of [Run]. *)
Lemma checkAll_silent (w : World) (c : ContainerCheck) (scripts : list string) (t : Z)
    (created : gset string) :
  sent ch_run_done (fst (ContainerCheck.checkAll w c scripts t created)) = O.
Proof.
  unfold ContainerCheck.checkAll.
  destruct (ContainerCheck.contact_group c) as [grp|]; [|done].
  assert (∀ created, sent ch_run_done
            (ContainerCheck.checkAll_loop w c grp t scripts created).1.1 = O) as H.
  { clear created. induction scripts as [|s rest IH]; intros created; [done|].
    rewrite loop_cons. destruct (unregistered w created c s).
    - destruct (Output w _) as [out|err]; [|done].
      specialize (IH (os_Create w created (marker c s))).
      by destruct (ContainerCheck.checkAll_loop w c grp t rest _) as [[ev cr] fin].
    - specialize (IH created).
      by destruct (ContainerCheck.checkAll_loop w c grp t rest _) as [[ev cr] fin]. }
  specialize (H created).
  destruct (ContainerCheck.checkAll_loop w c grp t scripts created) as [[ev cr] fin].
  cbn [fst] in *. destruct fin; cbn [fst]; [|done].
  destruct (quiet_recv (length scripts)) as (_ & _ & Hq & _).
  by rewrite sent_app, H, Hq.
Qed.

(** X5. [ContainerCheck.Run] sends its completion signal once, whatever
    happens: a container cannot keep [Run] waiting. *)
Lemma ContainerCheck_Run_signals_once (w : World) (c : ContainerCheck) (t : Z)
    (created : gset string) :
  sent ch_run_done (fst (ContainerCheck.Run w c t created)) = 1%nat.
Proof.
  unfold ContainerCheck.Run. destruct (Output w _) as [o|err]; [|done].
  destruct (GoStrings.Split (GoStrings.TrimSpace o) _) as [|s0 scripts]; [done|].
  destruct (String.length s0 =? 0)%nat; [done|].
  pose proof (checkAll_silent w c (s0 :: scripts) t created) as H.
  destruct (ContainerCheck.checkAll w c (s0 :: scripts) t created) as [ev cr].
  cbn [fst] in *. cbn [sent]. by rewrite sent_app, H.
Qed.

(** C6. In [checkAll], let the scripts [pre] be dealt with, let the next
    script [s] have no marker, and let its registration command fail with
    [err]. Then [checkAll] prints the line
    [Failure to update contact group for service <name>. Error: <err>] and
    returns: after the events for [pre] come the look at the marker, the
    command and the line, and nothing else; no marker is created for [s];
    the checks started are those of [pre]; the scripts [post] play no part.
    The files created are markers of [pre], so the [checkAll] of a
    container whose markers are not among them does what it would have
    done had this one not run. *)
Theorem checkAll_registration_failure (w : World) (c : ContainerCheck) (t : Z) (grp : string)
    (pre : list string) (s : string) (post : list string) (created : gset string)
    (ev1 : list event) (created1 : gset string) (err : string)
    (Hgrp : ContainerCheck.contact_group c = Some grp)
    (Hpre : ContainerCheck.checkAll_loop w c grp t pre created = (ev1, created1, true))
    (Hs : unregistered w created1 c s = true)
    (Herr : Output w (registration_of c grp s) = inr err) :
  let ev := fst (ContainerCheck.checkAll w c (pre ++ s :: post) t created) in
  ContainerCheck.checkAll w c (pre ++ s :: post) t created
  = (ev1 ++ [EStat (marker c s); EOutput (registration_of c grp s);
             EPrint (registration_failure c s err)], created1)
  ∧ prints ev = prints ev1 ++ [registration_failure c s err]
  ∧ creates ev = creates ev1
  ∧ (marker c s ∉ created1)
  ∧ started ev = map (fun s' => go_checkWithTimeout (ContainerCheck.serviceCheck c s') t) pre
  ∧ (∀ p, p ∈ created1 → p ∈ created ∨ ∃ s', s' ∈ pre ∧ p = marker c s')
  ∧ (∀ c' scripts' t',
       (∀ s1 s2, s1 ∈ pre → s2 ∈ scripts' → marker c s1 ≠ marker c' s2) →
       fst (ContainerCheck.checkAll w c' scripts' t' created1)
       = fst (ContainerCheck.checkAll w c' scripts' t' created)).
Proof.
  intros ev. subst ev.
  assert (ContainerCheck.checkAll w c (pre ++ s :: post) t created
          = (ev1 ++ [EStat (marker c s); EOutput (registration_of c grp s);
                     EPrint (registration_failure c s err)], created1)) as ->.
  { unfold ContainerCheck.checkAll. rewrite Hgrp, loop_app, Hpre, loop_cons, Hs, Herr.
    reflexivity. }
  cbn [fst].
  assert (∀ p, p ∈ created1 → p ∈ created ∨ ∃ s', s' ∈ pre ∧ p = marker c s') as Hcreated.
  { intros p Hp. pose proof (loop_created w c grp t pre created p) as H.
    rewrite Hpre in H. destruct (H Hp) as [H'|[_ H']]; [by left|by right]. }
  split; [reflexivity|].
  split. { clear. induction ev1 as [|[] ev1 IH]; cbn; by rewrite ?IH. }
  split. { rewrite creates_app. cbn. by rewrite app_nil_r. }
  split. { by apply unregistered_spec in Hs as [Hs _]. }
  split. { rewrite started_app. cbn. rewrite app_nil_r. by eapply loop_started. }
  split; [exact Hcreated|].
  intros c' scripts' t' Hdisjoint. apply checkAll_frame.
  intros s2 Hs2. split.
  - intros Hp. destruct (Hcreated _ Hp) as [H|(s1 & Hs1 & H)]; [done|].
    by destruct (Hdisjoint s1 s2 Hs1 Hs2).
  - intros Hp. pose proof (loop_keeps w c grp t pre created _ Hp) as H.
    by rewrite Hpre in H.
Qed.

Lemma checkAll_registration_failure_witness :
  let c := Sample.check "c1" in
  let w := Sample.world_rejecting (registration_of c "atlantis_orphan_apps" "mem.sh") in
  let ev := fst (ContainerCheck.checkAll w c ["cpu.sh"; "mem.sh"; "disk.sh"] (5 * Second) ∅) in
  prints ev = ["Failure to update contact group for service mem_c1. Error:" +:+ LF
               +:+ "exit status 1" +:+ LF]
  ∧ creates ev = ["/etc/atlantis/supervisor/inventory/cpu_c1"]
  ∧ started ev = [go_checkWithTimeout (ContainerCheck.serviceCheck c "cpu.sh") (5 * Second)].
Proof.
  intros c w ev. subst ev.
  assert (ContainerCheck.checkAll_loop w c "atlantis_orphan_apps" (5 * Second) ["cpu.sh"] ∅
          = ([EStat (marker c "cpu.sh");
              EOutput (registration_of c "atlantis_orphan_apps" "cpu.sh");
              ECreate (marker c "cpu.sh");
              EGo (go_checkWithTimeout (ContainerCheck.serviceCheck c "cpu.sh") (5 * Second))],
             {[marker c "cpu.sh"]} ∪ ∅, true)) as Hpre by reflexivity.
  assert (unregistered w ({[marker c "cpu.sh"]} ∪ ∅) c "mem.sh" = true) as Hs
    by (by vm_compute).
  assert (Output w (registration_of c "atlantis_orphan_apps" "mem.sh") = inr "exit status 1")
    as Herr by (by vm_compute).
  destruct (checkAll_registration_failure w c (5 * Second) "atlantis_orphan_apps"
              ["cpu.sh"] "mem.sh" ["disk.sh"] ∅ _ _ "exit status 1" eq_refl Hpre Hs Herr)
    as (_ & H1 & H2 & _ & H3 & _).
  split; [exact H1|]. split; [exact H2|exact H3].
Defined.

(* ================================================================== *)
(** * Further properties of the monitor                                *)
(* ================================================================== *)

(** ** The lines of a check *)

Lemma validate_cases (s : ServiceCheck) (msg : string) :
  (ServiceCheck.validate s msg = msg
   ∧ GoStrings.Split msg " " !! 1%nat = Some (Service s))
  ∨ ServiceCheck.validate s msg = ServiceCheck.errMsg s None.
Proof.
  rewrite validate_Split.
  destruct (GoStrings.Split msg " " !! 1%nat) as [f|]; [|by right].
  destruct (String.eqb_spec f (Service s)) as [->|]; [by left|by right].
Qed.

(** X1. Validating twice changes nothing: what [validate] returns is
    returned unchanged by [validate]. *)
Theorem validate_idempotent (s : ServiceCheck) (msg : string) :
  ServiceCheck.validate s (ServiceCheck.validate s msg) = ServiceCheck.validate s msg.
Proof.
  destruct (validate_cases s msg) as [[H _]|H]; rewrite H; [exact H|].
  by destruct (validate_cases s (ServiceCheck.errMsg s None)) as [[H' _]|H'].
Qed.

Lemma severity_line_second_field (name rest : string) :
  has_byte name " " = false →
  GoStrings.Split ("2 " +:+ name +:+ " " +:+ rest) " " !! 1%nat = Some name.
Proof.
  intros Hname. change ("2 " +:+ ?x) with ("2" +:+ String " " x).
  rewrite (Split_app_sep_lookup " " "2" _ eq_refl).
  change (" " +:+ rest) with (String " " rest).
  by rewrite (Split_app_sep " " name rest Hname).
Qed.

(** X2. When the service name holds no space, every line printed for a
    check has the service name as its second field: the line of a check
    that ran, whether its output was kept or replaced or the command
    failed, and the timeout line. Each of them is accepted by [validate]
    as it is. *)
Theorem lines_name_the_service (w : World) (s : ServiceCheck)
    (Hname : has_byte (Service s) " " = false) :
  GoStrings.Split (ServiceCheck.result_line w s) " " !! 1%nat = Some (Service s)
  ∧ GoStrings.Split (ServiceCheck.timeOutMsg s) " " !! 1%nat = Some (Service s)
  ∧ ServiceCheck.validate s (ServiceCheck.result_line w s) = ServiceCheck.result_line w s
  ∧ ServiceCheck.validate s (ServiceCheck.timeOutMsg s) = ServiceCheck.timeOutMsg s.
Proof.
  assert (∀ rest, GoStrings.Split ("2 " +:+ Service s +:+ " " +:+ rest) " " !! 1%nat
                  = Some (Service s)) as Hline
    by (intros rest; by apply severity_line_second_field).
  assert (GoStrings.Split (ServiceCheck.result_line w s) " " !! 1%nat = Some (Service s)) as H1.
  { unfold ServiceCheck.result_line. destruct (Output w _) as [out|err].
    - destruct (validate_cases s out) as [ [Hv H] | Hv]; rewrite Hv; [exact H|].
      apply (Hline ("- Error encountered while monitoring the service" +:+ LF)).
    - apply (Hline ("- " +:+ err +:+ LF)). }
  assert (GoStrings.Split (ServiceCheck.timeOutMsg s) " " !! 1%nat = Some (Service s)) as H2
    by apply (Hline ("- Timeout occured during check" +:+ LF)).
  repeat split; try done.
  - rewrite validate_Split, H1. by rewrite String.eqb_refl.
  - rewrite validate_Split, H2. by rewrite String.eqb_refl.
Qed.

Lemma lines_name_the_service_witness :
  let w := Sample.world "garbage" Second true [] None in
  GoStrings.Split (ServiceCheck.result_line w Sample.cpu_c1) " " !! 1%nat = Some "cpu_c1".
Proof.
  intros w. exact (proj1 (lines_name_the_service w Sample.cpu_c1 eq_refl)).
Defined.

(** ** The race of [checkWithTimeout], whatever the times *)

(** X3. [checkWithTimeout] sends its completion signal once, at the
    earlier of the end of the check and the deadline ([d <= 0] counting
    as no wait at all): the caller never waits for longer than the
    timeout. The check's own goroutine sends its signal once as well, and
    that signal is received at most once. *)
Theorem checkWithTimeout_bounded_wait (w : World) (s : ServiceCheck) (d : Z)
    (sel : ServiceCheck.tie) (now : Z) :
  let tl := ServiceCheck.checkWithTimeout w s d sel now in
  sent_at ch_results tl = Some (now + Z.min (Elapsed w (ServiceCheck.cmd s)) (Z.max 0 d))
  ∧ sent ch_results tl.*2 = 1%nat
  ∧ sent ch_check_done tl.*2 = 1%nat
  ∧ (received ch_check_done tl.*2 ≤ 1)%nat.
Proof.
  intros tl. subst tl. unfold ServiceCheck.checkWithTimeout, ServiceCheck.runCheck.
  set (took := Elapsed w (ServiceCheck.cmd s)).
  repeat split; destruct sel; race; cbn; try lia; f_equal; lia.
Qed.

(** X4. Whatever the times, the check's own line is printed once (if the
    process lives long enough), and the timeout line at most once: the
    lines of [checkWithTimeout] are the check's line, or the two lines in
    either order; the timeout line is there exactly when the completion
    signal was not the answer to the check's. *)
Theorem checkWithTimeout_lines (w : World) (s : ServiceCheck) (d : Z)
    (sel : ServiceCheck.tie) (now : Z) :
  let tl := ServiceCheck.checkWithTimeout w s d sel now in
  let own := ServiceCheck.result_line w s in
  let timeout := ServiceCheck.timeOutMsg s in
  (prints tl.*2 = [own] ∧ received ch_check_done tl.*2 = 1%nat)
  ∨ ((prints tl.*2 = [timeout; own] ∨ prints tl.*2 = [own; timeout])
     ∧ received ch_check_done tl.*2 = O).
Proof.
  intros tl own timeout. subst tl own timeout.
  unfold ServiceCheck.checkWithTimeout, ServiceCheck.runCheck.
  set (took := Elapsed w (ServiceCheck.cmd s)).
  destruct sel; race; cbn; auto.
Qed.

(** ** [ContainerCheck.Run], the other ways through it *)

(** X6. When the remote listing fails, [ContainerCheck.Run] prints one
    Critical line for the container, carrying the error, and is done: no
    script is looked at, nothing is registered or created, no check is
    started, and the completion signal is sent. *)
Theorem Run_listing_failure (w : World) (c : ContainerCheck) (t : Z) (created : gset string)
    (err : string) (Hls : Output w (listing c) = inr err) :
  let '(ev, created') := ContainerCheck.Run w c t created in
  prints ev = ["2 " +:+ cc_Name c +:+ " - Error getting checks for container:" +:+ LF
               +:+ err +:+ LF]
  ∧ outputs ev = [listing c]
  ∧ started ev = []
  ∧ creates ev = []
  ∧ sent ch_run_done ev = 1%nat
  ∧ created' = created.
Proof.
  unfold ContainerCheck.Run. fold (listing c). rewrite Hls. by repeat split.
Qed.

Lemma Run_listing_failure_witness :
  let c := Sample.check "c1" in
  started (fst (ContainerCheck.Run (Sample.world_rejecting (listing c)) c (5 * Second) ∅)) = [].
Proof.
  intros c.
  assert (Output (Sample.world_rejecting (listing c)) (listing c) = inr "exit status 1") as H
    by (by vm_compute).
  pose proof (Run_listing_failure (Sample.world_rejecting (listing c)) c (5 * Second) ∅
                "exit status 1" H) as Hrun.
  destruct (ContainerCheck.Run _ _ _ _) as [ev created']. apply Hrun.
Defined.

Lemma trim_left_suffix (runes : list string) (fuel : nat) :
  ∀ s, ∃ p, s = p +:+ GoStrings.trim_left runes fuel s.
Proof.
  induction fuel as [|fuel IH]; intros s; cbn [GoStrings.trim_left]; [by exists EmptyString|].
  destruct (GoStrings.strip_rune runes s) as [rest|] eqn:E; [|by exists EmptyString].
  assert (∃ r, s = r +:+ rest) as [r ->].
  { clear IH. induction runes as [|r runes IHr]; cbn [GoStrings.strip_rune] in E; [done|].
    destruct (GoStrings.strip_prefix r s) as [rest'|] eqn:E'; [|by apply IHr].
    injection E as ->. exists r. clear IHr. revert s E'.
    induction r as [|x r IHr]; intros s E'; cbn [GoStrings.strip_prefix] in E'.
    - by injection E' as ->.
    - destruct s as [|y s]; [done|]. destruct (Ascii.eqb_spec x y) as [->|]; [|done].
      rewrite append_cons. f_equal. by apply IHr. }
  destruct (IH rest) as [p Hp]. exists (r +:+ p). by rewrite append_assoc, <- Hp.
Qed.

(** What [TrimSpace] returns starts where the left-trimmed string
    starts. *)
Lemma TrimRightSpace_prefix (s : string) : ∃ x, s = GoStrings.TrimRightSpace s +:+ x.
Proof.
  unfold GoStrings.TrimRightSpace.
  destruct (trim_left_suffix (map GoStrings.rev_string GoStrings.space_runes)
              (String.length s) (GoStrings.rev_string s)) as [p Hp].
  exists (GoStrings.rev_string p).
  rewrite <- rev_string_app, <- Hp. by rewrite rev_string_involutive.
Qed.

Lemma TrimSpace_first_byte (o : string) (x : ascii) (r : string) :
  GoStrings.TrimSpace o = String x r → x ≠ ascii_of_nat 10.
Proof.
  unfold GoStrings.TrimSpace. intros H.
  destruct (TrimRightSpace_prefix (GoStrings.TrimLeftSpace o)) as [y Hy].
  rewrite H, append_cons in Hy.
  pose proof (proj1 (TrimSpace_trimmed o)) as Hleft. rewrite Hy in Hleft.
  intros ->. vm_compute in Hleft. discriminate.
Qed.

Lemma Split_first_field (sep x : ascii) (r : string) :
  x ≠ sep → ∃ h t, GoStrings.Split (String x r) sep = String x h :: t.
Proof.
  intros Hx. cbn [GoStrings.Split]. destruct (Ascii.eqb_spec x sep); [done|].
  pose proof (Split_nonempty sep r). destruct (GoStrings.Split r sep) as [|h t]; [done|].
  by exists h, t.
Qed.

(** X7. When the remote listing succeeds and is not empty after trimming,
    [ContainerCheck.Run] prints its OK line, hands the lines of the
    trimmed listing to [checkAll], and sends its completion signal when
    [checkAll] is back. (With C4: [checkAll] is called exactly when the
    trimmed listing is not empty.) *)
Theorem Run_with_scripts (w : World) (c : ContainerCheck) (t : Z) (created : gset string)
    (o : string) (Hls : Output w (listing c) = inl o)
    (Hscripts : GoStrings.TrimSpace o ≠ EmptyString) :
  let scripts := GoStrings.Split (GoStrings.TrimSpace o) (ascii_of_nat 10) in
  hd EmptyString scripts ≠ EmptyString
  ∧ ContainerCheck.Run w c t created
    = (EOutput (listing c)
         :: EPrint ("0 " +:+ cc_Name c +:+ " - Got checks for container" +:+ LF)
         :: fst (ContainerCheck.checkAll w c scripts t created) ++ [ESend ch_run_done],
       snd (ContainerCheck.checkAll w c scripts t created)).
Proof.
  intros scripts. subst scripts.
  unfold ContainerCheck.Run. fold (listing c). rewrite Hls.
  destruct (GoStrings.TrimSpace o) as [|x r] eqn:E; [done|].
  destruct (Split_first_field (ascii_of_nat 10) x r (TrimSpace_first_byte o x r E))
    as (h & rest & ->).
  split; [done|]. cbn [String.length Nat.eqb].
  by destruct (ContainerCheck.checkAll w c _ t created).
Qed.

Lemma Run_with_scripts_witness :
  let w := Sample.world ("cpu.sh" +:+ LF +:+ "mem.sh" +:+ LF) Second true [] None in
  length (started (fst (ContainerCheck.Run w (Sample.check "c1") (5 * Second) ∅))) = 2%nat.
Proof.
  intros w.
  assert (GoStrings.TrimSpace ("cpu.sh" +:+ LF +:+ "mem.sh" +:+ LF) ≠ EmptyString) as Hne
    by (by vm_compute).
  destruct (Run_with_scripts w (Sample.check "c1") (5 * Second) ∅
              ("cpu.sh" +:+ LF +:+ "mem.sh" +:+ LF) eq_refl Hne) as [_ ->].
  by vm_compute.
Defined.

(** ** [checkAll]: what it starts, waits for, registers and creates *)


Section Balance.
Variables (w : World) (c : ContainerCheck) (grp : string) (t : Z).


End Balance.



(** X9. [checkAll] never removes a file, and the files it creates are
    markers of its own scripts, at paths where [os.Create] succeeds. *)
Theorem checkAll_only_adds_markers (w : World) (c : ContainerCheck) (scripts : list string)
    (t : Z) (created : gset string) :
  let created' := snd (ContainerCheck.checkAll w c scripts t created) in
  (∀ p, p ∈ created → p ∈ created')
  ∧ (∀ p, p ∈ created' → p ∉ created →
          Creatable w p = true ∧ ∃ s, s ∈ scripts ∧ p = marker c s).
Proof.
  intros created'. subst created'. unfold ContainerCheck.checkAll.
  destruct (ContainerCheck.contact_group c) as [grp|]; [|by split].
  pose proof (loop_keeps w c grp t scripts created) as Hk.
  pose proof (loop_created w c grp t scripts created) as Hc.
  destruct (ContainerCheck.checkAll_loop w c grp t scripts created) as [[ev cr] [|]];
    cbn [fst snd] in *; (split; [exact Hk|]); intros p Hp Hn;
    by destruct (Hc p Hp).
Qed.



(** X11. Two scripts of a container never run the same remote command:
    the command of a check tells the script (while its service name may
    not, see C9). *)
Theorem serviceCheck_command_inj (c : ContainerCheck) (s s' : string) :
  ServiceCheck.cmd (ContainerCheck.serviceCheck c s)
  = ServiceCheck.cmd (ContainerCheck.serviceCheck c s') →
  s = s'.
Proof.
  unfold ServiceCheck.cmd, silentSshCmd, GoExec.Command, ContainerCheck.serviceCheck.
  cbn [Script User Identity Host Port]. intros [= H].
  apply append_inj_l in H. apply (append_inj_l "/") in H.
  by apply append_inj_r in H.
Qed.

Lemma serviceCheck_command_inj_witness : "cpu.sh" = "cpu.sh".
Proof.
  exact (serviceCheck_command_inj (Sample.check "c1") "cpu.sh" "cpu.sh" eq_refl).
Defined.

(** ** The clean-up and the markers *)

Lemma Split_app (sep : ascii) (x y : string) :
  GoStrings.Split (x +:+ String sep y) sep = GoStrings.Split x sep ++ GoStrings.Split y sep.
Proof.
  induction x as [|z x IH]; [rewrite append_nil_l; cbn; by rewrite Ascii.eqb_refl|].
  rewrite append_cons. cbn [GoStrings.Split]. rewrite IH.
  destruct (Ascii.eqb z sep); [done|].
  pose proof (Split_nonempty sep x). by destruct (GoStrings.Split x sep).
Qed.

Lemma Split_last (sep : ascii) (x y : string) :
  has_byte y sep = false →
  List.last (GoStrings.Split (x +:+ String sep y) sep) EmptyString = y.
Proof. intros Hy. rewrite Split_app, (Split_no_sep sep y Hy). apply last_last. Qed.

Lemma marker_shape (c : ContainerCheck) (s : string) :
  ∃ x, marker c s = x +:+ String "_" (Types.ID (container c)).
Proof.
  unfold marker, GoPath.Join.
  set (name := hd EmptyString (GoStrings.Split s ".")).
  destruct (String.eqb (cc_Inventory c) ""); [by exists name|].
  destruct (String.eqb_spec (name +:+ "_" +:+ Types.ID (container c)) "") as [E|_].
  - by destruct (append_not_empty name (Types.ID (container c)) "_").
  - exists (cc_Inventory c +:+ "/" +:+ name). by rewrite !append_assoc.
Qed.

(** X12. The marker [checkAll] keeps for a script of a container ends in
    [_<id>]: when the id holds no [_], the clean-up reads the id back from
    the marker's path, and it leaves the marker in place as long as the id
    is a key of the container map. *)
Theorem live_marker_is_kept (contMap : list (string * Types.Container))
    (c : ContainerCheck) (s : string) (there : option GoOS.node)
    (Hid : has_byte (Types.ID (container c)) "_" = false)
    (Hlive : has_key contMap (Types.ID (container c)) = true) :
  List.last (GoStrings.Split (marker c s) "_") EmptyString = Types.ID (container c)
  ∧ stale contMap (marker c s) = false
  ∧ cleanup_walkFn contMap (marker c s) there = (there, [], None).
Proof.
  destruct (marker_shape c s) as [x Hx].
  assert (List.last (GoStrings.Split (marker c s) "_") EmptyString = Types.ID (container c))
    as Hlast by (rewrite Hx; by apply Split_last).
  split; [done|]. unfold stale, cleanup_walkFn. by rewrite Hlast, Hlive.
Qed.

Lemma live_marker_is_kept_witness :
  cleanup_walkFn [("c1", Sample.a_container "c1")] (marker (Sample.check "c1") "cpu.sh")
    (Some GoOS.File)
  = (Some GoOS.File, [], None).
Proof.
  exact (proj2 (proj2 (live_marker_is_kept [("c1", Sample.a_container "c1")]
                         (Sample.check "c1") "cpu.sh" (Some GoOS.File) eq_refl eq_refl))).
Defined.

Lemma cleanup_walkFn_stale contMap path there :
  Forall (removes_stale contMap) (cleanup_walkFn contMap path there).1.2.
Proof.
  unfold cleanup_walkFn.
  destruct (has_key contMap _) eqn:E; [constructor|].
  destruct (GoOS.Remove path there). repeat constructor. cbn. unfold stale. by rewrite E.
Qed.

Lemma walk_stale contMap (n : GoOS.node) :
  ∀ path, Forall (removes_stale contMap) (GoFilepath.walk (cleanup_walkFn contMap) path n).1.2.
Proof.
  induction n as [|entries IH] using node_ind; intros path; cbn [GoFilepath.walk].
  - pose proof (cleanup_walkFn_stale contMap path (Some GoOS.File)) as H.
    destruct (cleanup_walkFn _ _ _) as [[there ev] [e|]]; exact H.
  - pose proof (cleanup_walkFn_stale contMap path (Some (GoOS.Dir entries))) as H.
    destruct (cleanup_walkFn contMap path (Some (GoOS.Dir entries))) as [[there ev] [e|]];
      [exact H|].
    destruct there as [there|].
    + assert (Forall (removes_stale contMap)
                (GoFilepath.walk_entries
                   (fun p child => GoFilepath.walk (cleanup_walkFn contMap) p child)
                   path entries).1.2) as Hes.
      { clear H. induction IH as [|[name child] es Hc _ IHes]; [constructor|].
        cbn [GoFilepath.walk_entries].
        specialize (Hc (GoPath.Join path name)). cbn [snd] in Hc.
        destruct (GoFilepath.walk _ _ child) as [[st ev1] [e|]]; [exact Hc|].
        destruct (GoFilepath.walk_entries _ _ es) as [[rest' ev2] err2].
        apply Forall_app; split; [exact Hc|exact IHes]. }
      destruct (GoFilepath.walk_entries _ _ entries) as [[entries' ev'] err'].
      apply Forall_app; split; [exact H|exact Hes].
    + pose proof (cleanup_walkFn_stale contMap path None) as H'.
      destruct (cleanup_walkFn contMap path None) as [[there' ev'] err'].
      apply Forall_app; split; [exact H|exact H'].
Qed.

(** X13. Whatever is in the inventory directory, files or directories at
    any depth, the clean-up does nothing but call [os.Remove], and only on
    paths whose text after the last [_] is no key of the container map. *)
Theorem InventoryGC_removes_stale_only (contMap : list (string * Types.Container))
    (dir : string) (inventory : option GoOS.node) :
  Forall (removes_stale contMap) (InventoryGC contMap dir inventory).1.2.
Proof.
  unfold InventoryGC, GoFilepath.Walk. destruct inventory as [n|].
  - apply walk_stale.
  - apply cleanup_walkFn_stale.
Qed.

(** X16. An inventory directory that is empty, and whose path does not end
    in [_<id>] for a container of the map, is itself removed by the
    clean-up: removing it is the first thing the clean-up does, and there
    is no directory afterwards. The clean-up of a directory that is not
    there reports the error of the removal it tries. *)
Theorem InventoryGC_removes_empty_directory (contMap : list (string * Types.Container))
    (dir : string) (Hdir : stale contMap dir = true) :
  fst (fst (InventoryGC contMap dir (Some (GoOS.Dir [])))) = None
  ∧ head (snd (fst (InventoryGC contMap dir (Some (GoOS.Dir []))))) = Some (ERemove dir)
  ∧ InventoryGC contMap dir None
    = (None, [ERemove dir], Some ("remove " +:+ dir +:+ ": no such file or directory")).
Proof.
  unfold stale in Hdir. apply negb_true_iff in Hdir.
  unfold InventoryGC, GoFilepath.Walk. cbn [GoFilepath.walk].
  unfold cleanup_walkFn. rewrite Hdir. by repeat split.
Qed.

Lemma InventoryGC_removes_empty_directory_witness :
  fst (fst (InventoryGC [("c1", Sample.a_container "c1")] (InventoryDir config)
              (Some (GoOS.Dir [])))) = None.
Proof.
  exact (proj1 (InventoryGC_removes_empty_directory [("c1", Sample.a_container "c1")]
                  (InventoryDir config) eq_refl)).
Defined.

Lemma InventoryGC_flat_witness :
  InventoryGC [("c2", Sample.a_container "c2")] "/var/inventory_c2"
    (Some (GoOS.Dir [("cpu_c1", GoOS.File); ("cpu_c2", GoOS.File)]))
  = (Some (GoOS.Dir [("cpu_c2", GoOS.File)]), [ERemove "/var/inventory_c2/cpu_c1"], None).
Proof.
  exact (InventoryGC_flat [("c2", Sample.a_container "c2")] "/var/inventory_c2"
           ["cpu_c1"; "cpu_c2"] eq_refl).
Defined.

Lemma InventoryGC_stops_at_root_witness :
  InventoryGC [("c2", Sample.a_container "c2")] "/var/inventory"
    (Some (GoOS.Dir [("cpu_c1", GoOS.File)]))
  = (Some (GoOS.Dir [("cpu_c1", GoOS.File)]), [ERemove "/var/inventory"],
     Some "remove /var/inventory: directory not empty").
Proof.
  apply (InventoryGC_stops_at_root [("c2", Sample.a_container "c2")] "/var/inventory"
           [("cpu_c1", GoOS.File)] eq_refl).
  discriminate.
Defined.

(** ** [Run] and the configuration *)


Lemma Run_decoded_events (w : World) (opts : Opts) (contMap : list (string * Types.Container)) :
  let cfg := overlayConfig w opts config in
  GoOS.IsNotExist (Stat w (ContainerFile cfg)) = false →
  RetrieveObject w (ContainerFile cfg) = inl contMap →
  fst (Run w opts)
  = [EStat (ContainerFile cfg); ERetrieve (ContainerFile cfg);
     EPrint ("0 " +:+ CheckName cfg +:+ " - Able to open " +:+ ContainerFile cfg +:+ LF)]
    ++ map (fun kc => EGo (go_ContainerCheck_Run
                             (container_check cfg
                                (GoStrings.Replace1 (SSHIdentity cfg) "~" (Getenv w "HOME"))
                                kc.2)
                             (int64 (TimeoutDuration cfg * Second)))) contMap
    ++ [EOutput reinventory] ++ map (fun _ => ERecv ch_run_done) contMap
    ++ snd (fst (InventoryGC contMap (InventoryDir cfg) (Inventory w)))
    ++ cleanup_report (snd (InventoryGC contMap (InventoryDir cfg) (Inventory w))).
Proof.
  intros cfg Hstat Hmap. unfold Run. fold cfg. rewrite Hstat, Hmap.
  by destruct (InventoryGC contMap (InventoryDir cfg) (Inventory w)) as [[inv' gc] err].
Qed.

Lemma prints_app (a b : list event) : prints (a ++ b) = prints a ++ prints b.
Proof. induction a as [|[] a IH]; cbn; by rewrite ?IH. Qed.

Lemma prints_map_quiet {A} (f : A → event) (l : list A) :
  (∀ x, prints [f x] = []) → prints (map f l) = [].
Proof.
  intros Hf. induction l as [|x l IH]; [done|]. cbn [map].
  change (f x :: map f l) with ([f x] ++ map f l). by rewrite prints_app, Hf, IH.
Qed.

(** X17. When the container file is there and cannot be decoded, [Run]
    prints one Critical line carrying the error and returns: no check is
    started, no subprocess is run, the inventory directory is left
    alone. *)
Theorem Run_decode_failure (w : World) (opts : Opts) (err : string)
    (Hstat : GoOS.IsNotExist (Stat w (ContainerFile (overlayConfig w opts config))) = false)
    (Hmap : RetrieveObject w (ContainerFile (overlayConfig w opts config)) = inr err) :
  let cfg := overlayConfig w opts config in
  prints (fst (Run w opts))
  = ["2 " +:+ CheckName cfg +:+ " - Could not retrieve " +:+ ContainerFile cfg +:+ ": "
     +:+ err +:+ LF]
  ∧ started (fst (Run w opts)) = []
  ∧ outputs (fst (Run w opts)) = []
  ∧ received ch_run_done (fst (Run w opts)) = O
  ∧ Forall (fun e => ¬ is_remove e) (fst (Run w opts))
  ∧ snd (Run w opts) = Inventory w.
Proof.
  intros cfg. subst cfg. unfold Run. rewrite Hstat, Hmap. cbn.
  repeat split; repeat constructor; auto.
Qed.

Lemma Run_decode_failure_witness :
  let w := {| Output := fun _ => inl EmptyString; Elapsed := fun _ => 0;
              Stat := fun _ => GoOS.StatOk; Creatable := fun _ => true;
              RetrieveObject := fun _ => inr "unexpected EOF";
              DecodeFile := fun _ c => c; Getenv := fun _ => "/root"; Inventory := None |} in
  prints (fst (Run w Sample.opts))
  = ["2 ContainerMonitor - Could not retrieve /etc/atlantis/supervisor/save/containers: "
     +:+ "unexpected EOF" +:+ LF].
Proof.
  intros w. exact (proj1 (Run_decode_failure w Sample.opts "unexpected EOF" eq_refl eq_refl)).
Defined.

(** X18. With the container map decoded, [Run] starts one
    [ContainerCheck.Run] per container of the map and nothing else. The
    check of a container carries the container's id, in its name too, and
    never an empty host: the host of the container when it has one,
    [localhost] otherwise. All the checks share the timeout, the user, the
    identity file, the check directory and the inventory directory of the
    configuration. *)
Theorem Run_starts_one_check_per_container (w : World) (opts : Opts)
    (contMap : list (string * Types.Container))
    (Hstat : GoOS.IsNotExist (Stat w (ContainerFile (overlayConfig w opts config))) = false)
    (Hmap : RetrieveObject w (ContainerFile (overlayConfig w opts config)) = inl contMap) :
  let cfg := overlayConfig w opts config in
  let identity := GoStrings.Replace1 (SSHIdentity cfg) "~" (Getenv w "HOME") in
  ∃ checks,
    started (fst (Run w opts))
    = map (fun check => go_ContainerCheck_Run check (int64 (TimeoutDuration cfg * Second)))
        checks
    ∧ Forall2 (fun kc check =>
                 Types.ID (container check) = Types.ID kc.2
                 ∧ cc_Name check = CheckName cfg +:+ "_" +:+ Types.ID kc.2
                 ∧ Types.Host (container check) ≠ EmptyString
                 ∧ (Types.Host kc.2 ≠ EmptyString →
                    Types.Host (container check) = Types.Host kc.2)
                 ∧ (Types.Host kc.2 = EmptyString →
                    Types.Host (container check) = "localhost")
                 ∧ Types.SSHPort (container check) = Types.SSHPort kc.2
                 ∧ Types.PrimaryPort (container check) = Types.PrimaryPort kc.2
                 ∧ Types.Manifest_ (container check) = Types.Manifest_ kc.2
                 ∧ cc_User check = SSHUser cfg ∧ cc_Identity check = identity
                 ∧ cc_Directory check = CheckDir cfg ∧ cc_Inventory check = InventoryDir cfg)
        contMap checks.
Proof.
  intros cfg identity.
  exists (map (fun kc => container_check cfg identity kc.2) contMap). split.
  - rewrite (Run_decoded_events w opts contMap Hstat Hmap). fold cfg identity.
    pose proof (InventoryGC_removes contMap (InventoryDir cfg) (Inventory w)) as Hrm.
    destruct (cleanup_report_quiet (snd (InventoryGC contMap (InventoryDir cfg) (Inventory w))))
      as (_ & Hq & _).
    rewrite !started_app, started_wait, Hq, (removes_started _ Hrm), !app_nil_r.
    cbn [started app]. rewrite (started_spawn (fun kc : string * Types.Container =>
      go_ContainerCheck_Run (container_check cfg identity kc.2)
        (int64 (TimeoutDuration cfg * Second)))).
    by rewrite map_map.
  - clear. induction contMap as [|kc l IH]; [constructor|]. cbn [map]. constructor; [|exact IH].
    unfold container_check. destruct (String.eqb_spec (Types.Host kc.2) "") as [E|E];
      cbn; rewrite ?E; repeat split; try done.
Qed.

Lemma Run_starts_one_check_per_container_witness :
  let w := Sample.world EmptyString Second true
             [("c1", Sample.a_container "c1"); ("c2", Sample.a_container "c2")] None in
  length (started (fst (Run w Sample.opts))) = 2%nat.
Proof.
  intros w.
  destruct (Run_starts_one_check_per_container w Sample.opts
              [("c1", Sample.a_container "c1"); ("c2", Sample.a_container "c2")]
              eq_refl eq_refl) as (checks & -> & H).
  rewrite length_map. symmetry. exact (Forall2_length _ _ _ H).
Defined.

(** X19. With the container map decoded, [Run] itself prints the line
    [0 <check name> - Able to open <path>] and, exactly when the clean-up
    walk ended with an error, one more line, which carries that error. *)
Theorem Run_prints_after_decoding (w : World) (opts : Opts)
    (contMap : list (string * Types.Container))
    (Hstat : GoOS.IsNotExist (Stat w (ContainerFile (overlayConfig w opts config))) = false)
    (Hmap : RetrieveObject w (ContainerFile (overlayConfig w opts config)) = inl contMap) :
  let cfg := overlayConfig w opts config in
  let able := "0 " +:+ CheckName cfg +:+ " - Able to open " +:+ ContainerFile cfg +:+ LF in
  match snd (InventoryGC contMap (InventoryDir cfg) (Inventory w)) with
  | None => prints (fst (Run w opts)) = [able]
  | Some e =>
      prints (fst (Run w opts))
      = [able; "Error iterating over inventory to delete obsolete markers. Error:" +:+ LF
               +:+ e +:+ LF]
  end.
Proof.
  intros cfg able. subst able.
  rewrite (Run_decoded_events w opts contMap Hstat Hmap). fold cfg.
  pose proof (InventoryGC_removes contMap (InventoryDir cfg) (Inventory w)) as Hrm.
  rewrite !prints_app, (removes_prints _ Hrm).
  rewrite !prints_map_quiet by done. cbn [prints app].
  by destruct (snd (InventoryGC contMap (InventoryDir cfg) (Inventory w))).
Qed.

Lemma Run_prints_after_decoding_witness :
  let w := Sample.world EmptyString Second true [("c1", Sample.a_container "c1")]
             (Some (GoOS.Dir [("cpu_c1", GoOS.File)])) in
  length (prints (fst (Run w Sample.opts))) = 2%nat.
Proof.
  intros w.
  pose proof (Run_prints_after_decoding w Sample.opts [("c1", Sample.a_container "c1")]
                eq_refl eq_refl) as H.
  cbv zeta in H.
  change (snd (InventoryGC _ _ _))
    with (Some "remove /etc/atlantis/supervisor/inventory: directory not empty") in H.
  cbv iota in H. by rewrite H.
Defined.

(** X20. Options win over the configuration file where they are given and
    cannot blank a setting: every setting of the result is the option
    when the option is not empty (not zero for the timeout) and the value
    decoded from the file otherwise, so a setting that is not empty in the
    file is not empty in the result. No option reaches the inventory
    directory. *)
Theorem overlayConfig_precedence (w : World) (opts : Opts) (cfg : Config) :
  let file := if String.eqb (opt_Config opts) "" then cfg
              else DecodeFile w (opt_Config opts) cfg in
  let result := overlayConfig w opts cfg in
  let pick (o f r : string) := (o ≠ EmptyString → r = o) ∧ (o = EmptyString → r = f)
                               ∧ (f ≠ EmptyString → r ≠ EmptyString) in
  pick (opt_ContainerFile opts) (ContainerFile file) (ContainerFile result)
  ∧ pick (opt_SSHIdentity opts) (SSHIdentity file) (SSHIdentity result)
  ∧ pick (opt_SSHUser opts) (SSHUser file) (SSHUser result)
  ∧ pick (opt_CheckName opts) (CheckName file) (CheckName result)
  ∧ pick (opt_CheckDir opts) (CheckDir file) (CheckDir result)
  ∧ (opt_TimeoutDuration opts ≠ 0 → TimeoutDuration result = opt_TimeoutDuration opts)
  ∧ (opt_TimeoutDuration opts = 0 → TimeoutDuration result = TimeoutDuration file)
  ∧ (TimeoutDuration file ≠ 0 → TimeoutDuration result ≠ 0)
  ∧ InventoryDir result = InventoryDir file.
Proof.
  intros file result pick. subst file result pick. unfold overlayConfig.
  destruct (String.eqb (opt_Config opts) ""); cbn [negb];
    set (file := if true then _ else _) || set (file := DecodeFile _ _ _) || idtac;
    cbn [ContainerFile SSHIdentity SSHUser CheckName CheckDir TimeoutDuration InventoryDir];
    repeat match goal with
           | |- context [String.eqb ?a ""] => destruct (String.eqb_spec a "")
           | |- context [?a =? 0] => destruct (Z.eqb_spec a 0)
           end; cbn [negb]; repeat split; intros; congruence.
Qed.



(** X22. A timeout between 9223372037 and 18446744073 seconds wraps
    around to a negative duration, and a check run with it is reported as
    timed out at the very start, however short it is. *)
Theorem timeout_wraps_around (w : World) (s : ServiceCheck) (seconds : Z)
    (sel : ServiceCheck.tie) (now : Z)
    (Hseconds : 9223372037 ≤ seconds ≤ 18446744073)
    (Htook : 0 < Elapsed w (ServiceCheck.cmd s)) :
  let t := int64 (seconds * Second) in
  let tl := ServiceCheck.checkWithTimeout w s t sel now in
  t < 0
  ∧ printed_at (ServiceCheck.timeOutMsg s) tl = Some now
  ∧ sent_at ch_results tl = Some now
  ∧ prints tl.*2 = [ServiceCheck.timeOutMsg s; ServiceCheck.result_line w s].
Proof.
  intros t tl.
  assert (t < 0) as Ht.
  { subst t. unfold int64, Second.
    replace (seconds * 1000000000 + 2 ^ 63)
      with (seconds * 1000000000 - 2 ^ 63 + 1 * 2 ^ 64) by lia.
    rewrite Z.mod_add by lia. rewrite Z.mod_small; lia. }
  split; [exact Ht|]. subst tl. clearbody t.
  unfold ServiceCheck.checkWithTimeout, ServiceCheck.runCheck.
  set (took := Elapsed w (ServiceCheck.cmd s)) in *.
  repeat split; destruct sel; race; cbn; rewrite ?String.eqb_refl; try done;
    f_equal; lia.
Qed.

Lemma timeout_wraps_around_witness :
  int64 (9223372037 * Second) < 0.
Proof.
  exact (proj1 (timeout_wraps_around
                  (Sample.world EmptyString Second true [] None) Sample.cpu_c1
                  9223372037 ServiceCheck.TieDone 0 ltac:(lia) eq_refl)).
Defined.

(* ================================================================== *)
(** * Properties of [rpc/types]                                        *)
(* ================================================================== *)

(** ** [RandomID] *)

Lemma last_index_spec (sep : ascii) (s : string) :
  ∀ i found,
    (has_byte s sep = false → GoStrings.last_index s sep i found = found)
    ∧ (∀ pre y, s = pre +:+ String sep y → has_byte y sep = false →
                GoStrings.last_index s sep i found = i + Z.of_nat (String.length pre)).
Proof.
  induction s as [|c r IH]; intros i found.
  - split; [done|]. intros [|x pre] y H; [rewrite append_nil_l in H|rewrite append_cons in H];
      discriminate.
  - cbn [GoStrings.last_index has_byte]. split.
    + intros [Hc Hr]%orb_false_elim. rewrite Hc. by apply IH.
    + intros [|x pre] y H Hy.
      * rewrite append_nil_l in H. injection H as -> ->. rewrite Ascii.eqb_refl.
        rewrite (proj1 (IH (i + 1) i) Hy). cbn. lia.
      * rewrite append_cons in H. injection H as -> ->.
        rewrite (proj2 (IH (i + 1) (if Ascii.eqb x sep then i else found)) pre y eq_refl Hy).
        cbn [String.length]. lia.
Qed.

Lemma last_separator (sep : ascii) (s : string) :
  has_byte s sep = true →
  ∃ pre y, s = pre +:+ String sep y ∧ has_byte y sep = false.
Proof.
  induction s as [|c r IH]; [done|]. cbn [has_byte]. intros H.
  destruct (has_byte r sep) eqn:Hr.
  - destruct (IH eq_refl) as (pre & y & -> & Hy). by exists (String c pre), y.
  - rewrite orb_false_r in H. apply Ascii.eqb_eq in H as ->. by exists EmptyString, r.
Qed.

Lemma slice_from_app (pre y : string) :
  GoStrings.slice_from (String.length pre) (pre +:+ y) = y.
Proof. induction pre as [|c pre IH]; [by destruct y|]. by rewrite append_cons. Qed.

(** X26. [RandomID] is the last of the dash-separated fields of the id:
    the whole id when it has no dash, what follows the last dash
    otherwise. It holds no dash itself, and the id ends with it. *)
Theorem RandomID_last_field (c : Types.Container) :
  Types.RandomID c = List.last (GoStrings.Split (Types.ID c) "-") EmptyString
  ∧ has_byte (Types.RandomID c) "-" = false
  ∧ (has_byte (Types.ID c) "-" = false → Types.RandomID c = Types.ID c)
  ∧ ∃ pre, Types.ID c = pre +:+ Types.RandomID c.
Proof.
  unfold Types.RandomID, GoStrings.LastIndex.
  destruct (has_byte (Types.ID c) "-") eqn:H.
  - destruct (last_separator "-" _ H) as (pre & y & E & Hy). rewrite E.
    rewrite (proj2 (last_index_spec "-" (pre +:+ String "-" y) 0 (-1)) pre y eq_refl Hy).
    replace (Z.to_nat (0 + Z.of_nat (String.length pre) + 1))
      with (String.length (pre +:+ "-")) by (rewrite length_append; cbn; lia).
    change (String "-" y) with ("-" +:+ y). rewrite <- append_assoc, slice_from_app.
    rewrite append_assoc. change ("-" +:+ y) with (String "-" y).
    rewrite (Split_last "-" pre y Hy).
    repeat split; try done. exists (pre +:+ "-"). by rewrite append_assoc.
  - rewrite (proj1 (last_index_spec "-" (Types.ID c) 0 (-1)) H). cbn [Z.add Z.to_nat].
    cbn [GoStrings.slice_from]. rewrite (Split_no_sep "-" _ H). cbn [List.last].
    repeat split; try done. by exists EmptyString.
Qed.

(** ** [CreateManifest] and [DepNames] *)

Lemma append_commands_strings (strs : list string) :
  ∀ cmds, Types.append_commands cmds (map Types.IString strs) = inl (cmds ++ strs).
Proof.
  induction strs as [|s strs IH]; intros cmds; cbn; [by rewrite app_nil_r|].
  by rewrite IH, <- app_assoc.
Qed.

Lemma append_commands_other (l : list Types.iface) :
  Types.INotString ∈ l →
  ∀ cmds, Types.append_commands cmds l
          = inr "Invalid Manifest: non-string element in run_command array!".
Proof.
  induction l as [|[s|] l IH]; intros H cmds; cbn.
  - by apply elem_of_nil in H.
  - apply IH. by apply elem_of_cons in H as [|].
  - done.
Qed.

(** X23. [CreateManifest] accepts a [run_command] that is a string or an
    array of strings and nothing else. A string gives that one command;
    an array gives its strings after an empty command, which the slice
    made with length 1 puts in front; an array with an element that is no
    string and any other value are refused, each with its own error. *)
Theorem CreateManifest_run_command (mt : Types.ManifestTOML) :
  match Types.t_RunCommand mt with
  | Types.RunString s =>
      ∃ m, Types.CreateManifest mt = inl m ∧ Types.RunCommands m = [s]
  | Types.RunArray l =>
      (∀ strs, l = map Types.IString strs →
               ∃ m, Types.CreateManifest mt = inl m
                    ∧ Types.RunCommands m = EmptyString :: strs)
      ∧ (Types.INotString ∈ l →
         Types.CreateManifest mt
         = inr "Invalid Manifest: non-string element in run_command array!")
  | Types.RunOther =>
      Types.CreateManifest mt
      = inr "Invalid Manifest: run_command should be string or []string"
  end.
Proof.
  unfold Types.CreateManifest. destruct (Types.t_RunCommand mt) as [s|l|].
  - by eexists.
  - split.
    + intros strs ->. rewrite append_commands_strings. by eexists.
    + intros H. by rewrite append_commands_other.
  - done.
Qed.

Lemma fill_loop (src : list string) :
  ∀ pre rest,
    length rest = length src →
    fold_left (fun '(dst, i) x => (<[i := x]> dst, S i)) src (pre ++ rest, length pre)
    = (pre ++ src, (length pre + length src)%nat).
Proof.
  induction src as [|x src IH]; intros pre rest Hlen.
  - destruct rest; [|done]. cbn. by rewrite Nat.add_0_r.
  - destruct rest as [|y rest]; [done|]. cbn [fold_left].
    replace (<[length pre := x]> (pre ++ y :: rest)) with ((pre ++ [x]) ++ rest).
    2:{ rewrite <- (Nat.add_0_r (length pre)) at 1. rewrite insert_app_r. cbn.
        by rewrite <- app_assoc. }
    replace (S (length pre)) with (length (pre ++ [x])) by (rewrite length_app; cbn; lia).
    rewrite IH by (cbn in Hlen; lia).
    rewrite <- app_assoc, length_app. cbn. f_equal. lia.
Qed.

(** The loop that fills a slice made for it copies the list. *)
Lemma fill_copies (src : list string) : Types.fill (length src) src = src.
Proof.
  unfold Types.fill.
  pose proof (fill_loop src [] (replicate (length src) EmptyString)) as H.
  cbn [app length] in H. by rewrite H by apply length_replicate.
Qed.

Lemma DepNames_keys (m : Types.Manifest) :
  Types.DepNames m = (map_to_list (Types.Deps m)).*1.
Proof.
  unfold Types.DepNames. rewrite <- (length_map_to_list (Types.Deps m)).
  rewrite <- (length_fmap fst). apply fill_copies.
Qed.

Lemma declared_deps (names : list string) :
  ∀ (acc : gmap string (option Types.AppDep)) k,
    fold_left (fun deps name => <[name := Some Types.empty_dep]> deps) names acc !! k
    = if decide (k ∈ names) then Some (Some Types.empty_dep) else acc !! k.
Proof.
  induction names as [|n names IH]; intros acc k; cbn [fold_left].
  - rewrite decide_False; [done|]. apply not_elem_of_nil.
  - rewrite IH. destruct (decide (k ∈ names)) as [Hk|Hk].
    + rewrite decide_True; [done|]. by right.
    + destruct (decide (n = k)) as [->|Hne].
      * rewrite lookup_insert_eq, decide_True; [done|]. by left.
      * rewrite lookup_insert_ne by done. rewrite decide_False; [done|].
        intros [->|H]%elem_of_cons; done.
Qed.

(** X24. The manifest [CreateManifest] returns has one dependency per name
    declared, each an empty one (never nil), and no other; [DepNames]
    gives the declared names back, each once. *)
Theorem CreateManifest_dependencies (mt : Types.ManifestTOML) (m : Types.Manifest)
    (Hm : Types.CreateManifest mt = inl m) :
  (∀ n, n ∈ Types.t_DepNames mt → Types.Deps m !! n = Some (Some Types.empty_dep))
  ∧ (∀ n, n ∉ Types.t_DepNames mt → Types.Deps m !! n = None)
  ∧ (∀ n, n ∈ Types.DepNames m ↔ n ∈ Types.t_DepNames mt)
  ∧ NoDup (Types.DepNames m).
Proof.
  assert (∀ k, Types.Deps m !! k
               = if decide (k ∈ Types.t_DepNames mt) then Some (Some Types.empty_dep)
                 else None) as Hdeps.
  { intros k. unfold Types.CreateManifest in Hm.
    destruct (match Types.t_RunCommand mt with
              | Types.RunString s => _ | Types.RunArray l => _ | Types.RunOther => _
              end) as [cmds|e]; [|done].
    injection Hm as <-. cbn [Types.Deps]. by rewrite declared_deps, lookup_empty. }
  split; [intros n Hn; by rewrite Hdeps, decide_True|].
  split; [intros n Hn; by rewrite Hdeps, decide_False|].
  rewrite DepNames_keys. split; [|apply NoDup_fst_map_to_list].
  intros n. rewrite list_elem_of_fmap. split.
  - intros ([k v] & -> & H%elem_of_map_to_list). cbn. rewrite Hdeps in H.
    by destruct (decide (k ∈ Types.t_DepNames mt)).
  - intros Hn. exists (n, Some Types.empty_dep). split; [done|].
    apply elem_of_map_to_list. by rewrite Hdeps, decide_True.
Qed.

Lemma CreateManifest_dependencies_witness :
  let mt := {| Types.t_Name := "app"; Types.t_Description := ""; Types.t_Instances := 1;
               Types.t_CPUShares := 1; Types.t_MemoryLimit := 256; Types.t_Image := "";
               Types.t_AppType := "";
               Types.t_RunCommand := Types.RunString "run";
               Types.t_DepNames := ["cmk"; "db"; "cmk"] |} in
  ∃ m, Types.CreateManifest mt = inl m ∧ NoDup (Types.DepNames m).
Proof.
  intros mt. eexists. split; [reflexivity|].
  exact (proj2 (proj2 (proj2 (CreateManifest_dependencies mt _ eq_refl)))).
Defined.

(** X27. A container whose manifest comes out of [CreateManifest] is
    registered by [checkAll] under the contact group
    [atlantis_orphan_apps], whether [cmk] is among its dependencies or
    not, and reading the group does not panic: a fresh dependency carries
    no data. *)
Theorem fresh_manifest_contact_group (mt : Types.ManifestTOML) (m : Types.Manifest)
    (c : ContainerCheck)
    (Hm : Types.CreateManifest mt = inl m)
    (Hc : Types.Manifest_ (container c) = Some m) :
  ContainerCheck.contact_group c = Some "atlantis_orphan_apps".
Proof.
  unfold ContainerCheck.contact_group. rewrite Hc.
  unfold Types.CreateManifest in Hm.
  destruct (match Types.t_RunCommand mt with
            | Types.RunString s => _ | Types.RunArray l => _ | Types.RunOther => _
            end) as [cmds|e]; [|done].
  injection Hm as <-. cbn [Types.Deps]. rewrite declared_deps, lookup_empty.
  by destruct (decide ("cmk" ∈ Types.t_DepNames mt)).
Qed.

Lemma fresh_manifest_contact_group_witness :
  let mt := {| Types.t_Name := "app"; Types.t_Description := ""; Types.t_Instances := 1;
               Types.t_CPUShares := 1; Types.t_MemoryLimit := 256; Types.t_Image := "";
               Types.t_AppType := "";
               Types.t_RunCommand := Types.RunString "run";
               Types.t_DepNames := ["cmk"] |} in
  ∃ m c, Types.CreateManifest mt = inl m
         ∧ Types.Manifest_ (container c) = Some m
         ∧ ContainerCheck.contact_group c = Some "atlantis_orphan_apps".
Proof.
  intros mt.
  set (m := {| Types.Name := "app"; Types.Description := ""; Types.Instances := 1;
               Types.CPUShares := 1; Types.MemoryLimit := 256; Types.Image := "";
               Types.AppType := ""; Types.RunCommands := ["run"];
               Types.Deps := <["cmk" := Some Types.empty_dep]> ∅ |}).
  set (c := {| cc_Name := "n"; cc_User := "root"; cc_Identity := "/id";
               cc_Directory := "/d"; cc_Inventory := "/inv";
               container := {| Types.ID := "c1"; Types.DockerID := ""; Types.IP := "";
                               Types.Host := "h1"; Types.PrimaryPort := 8080;
                               Types.SecondaryPorts := []; Types.SSHPort := 22;
                               Types.App := ""; Types.Sha := ""; Types.Env := "";
                               Types.Manifest_ := Some m |} |}).
  exists m, c. split; [reflexivity|]. split; [reflexivity|].
  exact (fresh_manifest_contact_group mt m c eq_refl eq_refl).
Defined.

(** ** [Dup] *)

Lemma copy_map {V} (l : list (string * V)) :
  NoDup l.*1 →
  ∀ (acc : gmap string V) k,
    fold_left (fun dm kv => <[kv.1 := kv.2]> dm) l acc !! k
    = match (list_to_map l : gmap string V) !! k with
      | Some v => Some v
      | None => acc !! k
      end.
Proof.
  induction l as [|[i x] l IH]; intros Hnd acc k; cbn [fold_left]; [done|].
  apply NoDup_cons in Hnd as [Hi Hnd]. rewrite IH by done. cbn [list_to_map foldr fst snd].
  destruct (decide (i = k)) as [->|Hne].
  - rewrite lookup_insert_eq.
    rewrite (not_elem_of_list_to_map_1 l k Hi). by rewrite lookup_insert_eq.
  - by rewrite !lookup_insert_ne.
Qed.

Lemma copy_map_to_list {V} (m : gmap string V) :
  fold_left (fun dm kv => <[kv.1 := kv.2]> dm) (map_to_list m) (∅ : gmap string V) = m.
Proof.
  apply map_eq. intros k. rewrite copy_map by apply NoDup_fst_map_to_list.
  rewrite list_to_map_to_list, lookup_empty. by destruct (m !! k).
Qed.

Lemma dup_dep_copies (val : Types.AppDep) : Types.dup_dep val = val.
Proof.
  destruct val as [sg dm ed]. unfold Types.dup_dep. cbn [Types.SecurityGroup Types.DataMap
    Types.EncryptedData]. by rewrite fill_copies, copy_map_to_list.
Qed.

Lemma dup_deps_loop (l : list (string * option Types.AppDep)) :
  ∀ acc : gmap string (option Types.AppDep),
    fold_left (fun acc kv =>
                 match acc, kv.2 with
                 | Some deps, Some val => Some (<[kv.1 := Some (Types.dup_dep val)]> deps)
                 | _, _ => None
                 end) l (Some acc)
    = if decide (Forall (fun kv => kv.2 ≠ None) l)
      then Some (fold_left (fun dm kv => <[kv.1 := kv.2]> dm) l acc)
      else None.
Proof.
  induction l as [|[k [val|]] l IH]; intros acc; cbn [fold_left fst snd].
  - by rewrite decide_True.
  - rewrite IH, dup_dep_copies. destruct (decide (Forall _ l)) as [H|H].
    + by rewrite decide_True by (by constructor).
    + rewrite decide_False; [done|]. by intros [_ H']%Forall_cons.
  - rewrite decide_False by (by intros [H' _]%Forall_cons).
    clear. induction l as [|kv l IH]; [done|]. exact IH.
Qed.

(** X25. [Dup] returns a manifest equal to the one it copies, field by
    field, command by command and dependency by dependency, when no
    dependency of the manifest is nil; it dereferences a nil dependency,
    and panics, when there is one. *)
Theorem Dup_copies (m : Types.Manifest) :
  ((∀ k, Types.Deps m !! k ≠ Some None) → Types.Dup m = Some m)
  ∧ ((∃ k, Types.Deps m !! k = Some None) → Types.Dup m = None).
Proof.
  unfold Types.Dup. rewrite dup_deps_loop, fill_copies. split.
  - intros Hdeps. rewrite decide_True.
    + rewrite copy_map_to_list. by destruct m.
    + apply Forall_forall. intros [k v] H%elem_of_map_to_list Hv. cbn in Hv. subst v.
      by destruct (Hdeps k).
  - intros [k Hk]. rewrite decide_False; [done|].
    intros H. apply elem_of_map_to_list in Hk.
    by destruct (proj1 (Forall_forall _ _) H _ Hk).
Qed.

Lemma Dup_copies_witness : Types.Dup Sample.manifest = Some Sample.manifest.
Proof.
  apply (proj1 (Dup_copies Sample.manifest)). intros k. unfold Sample.manifest.
  cbn [Types.Deps]. by rewrite lookup_empty.
Defined.

Lemma overlayConfig_precedence_witness :
  let opts := {| opt_ContainerFile := ""; opt_SSHIdentity := ""; opt_SSHUser := "";
                 opt_CheckName := "Monitor"; opt_CheckDir := ""; opt_TimeoutDuration := 0;
                 opt_Config := "" |} in
  CheckName (overlayConfig Sample.world_without_file opts config) = "Monitor"
  ∧ InventoryDir (overlayConfig Sample.world_without_file opts config) = InventoryDir config.
Proof.
  intros opts.
  destruct (overlayConfig_precedence Sample.world_without_file opts config)
    as (_ & _ & _ & (H & _) & _ & _ & _ & _ & Hinv).
  split; [apply H; discriminate|exact Hinv].
Defined.

Lemma RandomID_last_field_witness :
  Types.RandomID (Sample.a_container "plain") = "plain".
Proof.
  exact (proj1 (proj2 (proj2 (RandomID_last_field (Sample.a_container "plain")))) eq_refl).
Defined.

Lemma CreateManifest_run_command_witness :
  let mt := {| Types.t_Name := "app"; Types.t_Description := ""; Types.t_Instances := 1;
               Types.t_CPUShares := 1; Types.t_MemoryLimit := 256; Types.t_Image := "";
               Types.t_AppType := "";
               Types.t_RunCommand := Types.RunArray [Types.IString "a"; Types.IString "b"];
               Types.t_DepNames := [] |} in
  ∃ m, Types.CreateManifest mt = inl m ∧ Types.RunCommands m = [EmptyString; "a"; "b"].
Proof.
  intros mt. exact (proj1 (CreateManifest_run_command mt) ["a"; "b"] eq_refl).
Defined.
